(** * Download-Dropout: a shallow embedding of [download_dropout.py]

    The script walks the series index of a streaming catalog, walks the
    season pages of every series, writes the episode URLs to [urls.txt]
    and hands that file to an external downloader.

    Everything the script does is an effect on the outside world, so the
    embedding is a state-and-exception monad over an explicit [World]
    (request counter, chronological event trace, regular files and
    directories, and the module-level counter [total_urls]) and an
    [Env] that fixes what the outside world answers: the network, the
    HTML selectors of BeautifulSoup, [urljoin], the path functions, the
    process search path, [argparse], the operating system when a
    directory is created, and the downloader process.  Each [while True] loop
    of the source is a fuelled iteration; running out of fuel is a
    result of its own ([OutOfFuel]), never confused with a return, and
    more fuel never changes a result that was reached.

    External calls have the outcomes the script itself distinguishes in
    its [try]/[except] blocks, plus the ones it lets through: a request
    returns a response, raises a [RequestException] or is interrupted by
    the user; the downloader exits with a code, is interrupted, or
    cannot be launched; creating the output directory succeeds or
    raises an [OSError].  Opening and writing the output file and
    console output succeed. *)

From Stdlib Require Import Ascii.
From stdpp Require Import base strings list gmap pretty.

Open Scope string_scope.
Open Scope Z_scope.

(** ** Configuration (source lines 13-25) *)

Definition BASE_URL : string := "https://watch.dropout.tv".
Definition SERIES_INDEX : string := BASE_URL ++ "/series".
Definition OUTPUT_FILE : string := "urls.txt".
Definition COOKIES_FILE : string := "config/cookies.txt".
Definition ARCHIVE_FILE : string := "config/archive.txt".

(** Durations are kept in milliseconds, so that [REQUEST_DELAY = 2.5]
    seconds and its double are exact. *)
Definition REQUEST_DELAY : Z := 2500.
Definition TIMEOUT : Z := 60000.

(** The newline character of ["\n"] and the rule ["=" * 50]. *)
Definition NL : string := String (Ascii.ascii_of_nat 10) "".
Definition EQUALS_50 : string :=
  "==================================================".

(** ** Data *)

(** What the script reads of a [requests.Response]. *)
Record response := Response { status_code : Z; text : string }.

(** The series dictionaries [{"title": ..., "url": ...}]. *)
Record series := Series { title : string; url : string }.

(** One [li.js-collection-item.item-type-series] element, seen through
    the two [select_one] calls made on it: the [href] of its first
    [a.browse-item-link[href]] and the stripped text of its first
    [.browse-item-title strong], when present. *)
Record item := Item { item_link : option string; item_title : option string }.

(** The Python exceptions that the script raises, catches or lets through. *)
Inductive exn :=
| HTTPError (r : response)
| RequestException (msg : string)
| KeyboardInterrupt
| SystemExit (code : Z)
| FileNotFoundError (msg : string)
| CalledProcessError (returncode : Z)
| OSError (msg : string).

(** Observable effects, logged in the order they happen. *)
Inductive event :=
| EvPrint (line : string)
| EvGet (target : string) (timeout : Z)
| EvSleep (ms : Z)
| EvMakedirs (path : string)
| EvOpenW (path : string)
| EvOpenA (path : string)
| EvWrite (path : string) (data : string)
| EvRun (command : list string).

(** Results of [session.get]: a response, an exception of the
    [RequestException] family (connection error, timeout, bad URL), or
    an interrupt of the user while the request is in flight. *)
Inductive net_outcome :=
| NetResponse (r : response)
| NetError (msg : string)
| NetInterrupt.

(** Results of [subprocess.run(command, check=True)]: the process ran
    and exited with a code, the user interrupted it, or it could not be
    started at all. *)
Inductive proc_outcome :=
| ProcExit (code : Z)
| ProcInterrupt
| ProcLaunchError (msg : string).

(** Results of [argparse]'s [parse_args()]: the namespace (here its one
    field [output_dir]) or the exit argparse performs itself ([--help]
    exits 0, a usage error exits 2). *)
Inductive args_outcome :=
| ArgsParsed (output_dir : string)
| ArgsExit (code : Z).

(** Results of [os.makedirs(path, exist_ok=True)] on a path where
    nothing exists yet.  [DirsMade ancestors]: the call returns, having
    created the directory and the listed missing ancestors.
    [MkdirError ancestors msg]: the call raises the [OSError] of the
    operating system (no permission, a regular file among the
    ancestors, a read-only disk), the listed ancestors having been
    created before it gave up. *)
Inductive mkdir_outcome :=
| DirsMade (ancestors : list string)
| MkdirError (ancestors : list string) (msg : string).

Record World := mkWorld {
  clock : nat;                   (* requests sent so far *)
  trace : list event;            (* oldest event first *)
  fs : gmap string string;       (* regular files: path -> content *)
  total_urls : nat;              (* the module-level counter of the main block *)
  dirs : gset string             (* directories *)
}.

(** The outside world, as far as the script queries it. *)
Record Env := mkEnv {
  net : nat -> string -> net_outcome;     (* k-th request of the run, to a URL *)
  series_items : string -> list item;     (* soup.select("li.js-collection-item.item-type-series") *)
  episode_hrefs : string -> list string;  (* hrefs of soup.select("a.browse-item-link[href]") *)
  urljoin : string -> string -> string;
  os_name_nt : bool;                      (* os.name == "nt" *)
  which : string -> option string;        (* shutil.which *)
  abspath : string -> string;
  expanduser : string -> string;
  expandvars : string -> string;
  isabs : string -> bool;
  path_join : string -> string -> string;
  script_file : string;                   (* __file__ *)
  dirname : string -> string;
  argv_outcome : args_outcome;
  proc : list string -> proc_outcome;
  mkdir : string -> mkdir_outcome         (* os.makedirs on a fresh path *)
}.

(** ** The monad *)

Inductive result (A : Type) :=
| Done (a : A) (w : World)
| Raised (e : exn) (w : World)
| OutOfFuel (w : World).
Arguments Done {A} a w.
Arguments Raised {A} e w.
Arguments OutOfFuel {A} w.

Definition M (A : Type) : Type := World -> result A.

Definition ret {A} (a : A) : M A := fun w => Done a w.

Definition bind {A B} (m : M A) (k : A -> M B) : M B := fun w =>
  match m w with
  | Done a w' => k a w'
  | Raised e w' => Raised e w'
  | OutOfFuel w' => OutOfFuel w'
  end.

Definition raise {A} (e : exn) : M A := fun w => Raised e w.

(** [try: m except ...: h]: the handler says which exceptions it catches. *)
Definition try_except {A} (m : M A) (h : exn -> option (M A)) : M A := fun w =>
  match m w with
  | Raised e w' => match h e with Some k => k w' | None => Raised e w' end
  | r => r
  end.

Declare Scope py_scope.
Delimit Scope py_scope with py.
Notation "x <- m ;; k" := (bind m (fun x => k))
  (at level 100, m at next level, right associativity) : py_scope.
Notation "m ;;; k" := (bind m (fun _ => k))
  (at level 100, right associativity) : py_scope.
Open Scope py_scope.

(** [while True:] with a loop state [S]; the body either continues with
    a new state or leaves the loop with a value. *)
Fixpoint while_true {S A} (fuel : nat) (body : S -> M (S + A)) (s : S) : M A :=
  match fuel with
  | O => fun w => OutOfFuel w
  | Datatypes.S fuel' =>
      r <- body s ;;
      match r with
      | inl s' => while_true fuel' body s'
      | inr a => ret a
      end
  end.

(** [for x in xs:] with a loop state. *)
Fixpoint for_each {X S} (xs : list X) (body : X -> S -> M S) (s : S) : M S :=
  match xs with
  | [] => ret s
  | x :: xs' => s' <- body x s ;; for_each xs' body s'
  end.

(** ** Primitive effects *)

Definition log (e : event) (w : World) : World :=
  mkWorld (clock w) (trace w ++ [e])%list (fs w) (total_urls w) (dirs w).

Definition emit (e : event) : M unit := fun w => Done tt (log e w).

Definition print (line : string) : M unit := emit (EvPrint line).
Definition sleep (ms : Z) : M unit := emit (EvSleep ms).

(** [present w p]: something exists at the path [p], a regular file or
    a directory. *)
Definition present (w : World) (p : string) : Prop :=
  is_Some (fs w !! p) \/ p ∈ dirs w.

#[global] Instance present_dec (w : World) (p : string) : Decision (present w p) :=
  or_dec _ _.

(** [os.path.exists(p)]. *)
Definition path_exists (p : string) : M bool := fun w =>
  Done (bool_decide (present w p)) w.

(** [os.path.isfile(p)]: a regular file, not a directory. *)
Definition isfile (p : string) : M bool := fun w =>
  Done (bool_decide (is_Some (fs w !! p))) w.

Section Program.
Variable E : Env.

(** [session.get(url, timeout=TIMEOUT)]: the request is logged, counted
    and answered by the environment. *)
Definition session_get (u : string) : M response := fun w =>
  let w' := mkWorld (Datatypes.S (clock w)) (trace w ++ [EvGet u TIMEOUT])%list
                    (fs w) (total_urls w) (dirs w) in
  match net E (clock w) u with
  | NetResponse r => Done r w'
  | NetError msg => Raised (RequestException msg) w'
  | NetInterrupt => Raised KeyboardInterrupt w'
  end.

(** [response.raise_for_status()]: client and server error codes raise. *)
Definition raise_for_status (r : response) : M unit :=
  if (400 <=? status_code r) && (status_code r <? 600)
  then raise (HTTPError r) else ret tt.

(** One turn of the loop of [blocking_get] (source lines 36-57):
    [Some r] is [return r], [None] falls through to the next turn. *)
Definition blocking_get_attempt (u : string) (allow_400_stop : bool)
  : M (option response) :=
  try_except
    (print ("[GET] " ++ u) ;;;
     response <- session_get u ;;
     if allow_400_stop && (status_code response =? 400)
     then ret (Some response)
     else
       raise_for_status response ;;;
       sleep REQUEST_DELAY ;;;
       ret (Some response))
    (fun e =>
       match e with
       | HTTPError r =>
           Some (let status := status_code r in
                 if allow_400_stop && (status =? 400)
                 then ret (Some r)
                 else
                   print ("HTTP " ++ pretty status ++ " error, retrying slowly...") ;;;
                   sleep (REQUEST_DELAY * 2) ;;;
                   ret None)
       | RequestException msg =>
           Some (print ("Network error (" ++ msg ++ "), retrying slowly...") ;;;
                 sleep (REQUEST_DELAY * 2) ;;;
                 ret None)
       | _ => None
       end).

Definition blocking_get (fuel : nat) (u : string) (allow_400_stop : bool)
  : M response :=
  while_true fuel
    (fun _ : unit =>
       r <- blocking_get_attempt u allow_400_stop ;;
       match r with
       | Some resp => ret (inr resp)
       | None => ret (inl tt)
       end)
    tt.


(** *** Series index (source lines 59-100) *)

Definition series_of_item (it : item) : option series :=
  match item_link it with
  | Some href => Some (Series (default "Unknown" (item_title it)) href)
  | None => None
  end.

Definition series_page_url (page_num : nat) : string :=
  if bool_decide (page_num = 1%nat) then SERIES_INDEX
  else SERIES_INDEX ++ "?page=" ++ pretty page_num.

Definition get_series_from_page (fuel : nat) (page_num : nat)
  : M (option (list series)) :=
  r <- blocking_get fuel (series_page_url page_num) true ;;
  if status_code r =? 400 then ret None
  else ret (Some (omap series_of_item (series_items E (text r)))).

(** The body of [for s in batch:] on the pair [(all_series, seen)]. *)
Definition merge_series (st : list series * gset string) (s : series)
  : list series * gset string :=
  let '(all_series, seen) := st in
  if bool_decide (url s ∈ seen) then (all_series, seen)
  else ((all_series ++ [s])%list, {[url s]} ∪ seen).

Definition merge_batch (st : list series * gset string) (batch : list series)
  : list series * gset string :=
  foldl merge_series st batch.

Definition scrape_series_step (fuel : nat)
    (st : list series * gset string * nat)
  : M (list series * gset string * nat + list series) :=
  let '(all_series, seen, page) := st in
  batch <- get_series_from_page fuel page ;;
  match batch with
  | None => ret (inr all_series)
  | Some batch =>
      let '(all_series', seen') := merge_batch (all_series, seen) batch in
      ret (inl (all_series', seen', Datatypes.S page))
  end.

Definition scrape_all_series (fuel : nat) : M (list series) :=
  print "--- Finding all Series ---" ;;;
  all_series <- while_true fuel (scrape_series_step fuel) ([], ∅, 1%nat) ;;
  print ("Total Series Found: " ++ pretty (length all_series) ++ NL) ;;;
  ret all_series.

(** *** Season pages (source lines 102-142) *)

Definition season_url (show_url : string) (season_number : nat) : string :=
  show_url ++ "/season:" ++ pretty season_number.

Definition get_episode_links (fuel : nat) (show_url : string)
    (season_number : nat) : M (list string) :=
  r <- blocking_get fuel (season_url show_url season_number) false ;;
  ret (map (urljoin E show_url) (episode_hrefs E (text r))).

Definition scrape_show_step (fuel : nat) (show_url : string)
    (st : nat * list string) : M (nat * list string + list string) :=
  let '(season, all_episodes) := st in
  episodes <- get_episode_links fuel show_url season ;;
  match episodes with
  | [] => ret (inr all_episodes)
  | _ => ret (inl (Datatypes.S season, (all_episodes ++ episodes)%list))
  end.

Definition scrape_show_episodes (fuel : nat) (show : series) : M (list string) :=
  let show_title := title show in
  let show_url := url show in
  print ("--- Scraping: " ++ show_title ++ " ---") ;;;
  while_true fuel (scrape_show_step fuel show_url) (1%nat, []).

(** *** Locating the external tools (source lines 145-180) *)

Fixpoint resolve_binary (names : list string) : M (option string) :=
  match names with
  | [] => ret None
  | name :: names' =>
      match which E name with
      | Some path => ret (Some path)
      | None =>
          let local := abspath E name in
          b <- isfile local ;;
          if b then ret (Some local) else resolve_binary names'
      end
  end.

Definition get_ytdlp_binary : M string :=
  let candidates :=
    if os_name_nt E then ["yt-dlp.exe"; "yt-dlp"] else ["yt-dlp"] in
  binary <- resolve_binary candidates ;;
  match binary with
  | Some b => ret b
  | None => raise (FileNotFoundError
                     "yt-dlp binary not found in PATH or current directory")
  end.

Definition get_ffmpeg_path : M (option string) :=
  let candidates :=
    if os_name_nt E then ["ffmpeg.exe"; "ffmpeg"] else ["ffmpeg"] in
  resolve_binary candidates.

(** *** The download phase (source lines 183-234) *)

Definition subprocess_run (command : list string) : M unit := fun w =>
  let w' := log (EvRun command) w in
  match proc E command with
  | ProcExit code =>
      if code =? 0 then Done tt w' else Raised (CalledProcessError code) w'
  | ProcInterrupt => Raised KeyboardInterrupt w'
  | ProcLaunchError msg => Raised (OSError msg) w'
  end.

Definition ytdlp_command (ytdlp output_template : string)
    (ffmpeg_path : option string) : list string :=
  ([ ytdlp;
    "--cookies"; COOKIES_FILE;
    "-a"; OUTPUT_FILE;
    "--write-subs";
    "--write-auto-subs";
    "--sub-langs"; "en.*";
    "--embed-subs";
    "--embed-thumbnail";
    "--add-metadata";
    "--embed-metadata";
    "--write-info-json";
    "--write-description";
    "--write-thumbnail";
    "--convert-thumbnails"; "jpg";
    "--download-archive"; ARCHIVE_FILE;
    "-o"; output_template ]
  ++ (match ffmpeg_path with
     | Some p => ["--ffmpeg-location"; p]
     | None => []
     end))%list.

Definition run_ytdlp (output_dir : string) : M unit :=
  cookies <- path_exists COOKIES_FILE ;;
  if negb cookies then
    print (NL ++ "ERROR: '" ++ COOKIES_FILE
              ++ "' is missing. Cannot proceed with download.")
  else
    found <- try_except
               (b <- get_ytdlp_binary ;; ret (Some b))
               (fun e =>
                  match e with
                  | FileNotFoundError msg =>
                      Some (print (NL ++ "ERROR: " ++ msg) ;;; ret None)
                  | _ => None
                  end) ;;
    match found with
    | None => ret tt
    | Some ytdlp =>
        ffmpeg_path <- get_ffmpeg_path ;;
        let output_template :=
          path_join E output_dir
            "%(series)s/Season %(season_number)02d/%(episode_number)02d - %(episode)s.%(ext)s" in
        print (NL ++ EQUALS_50) ;;;
        print "STARTING YT-DLP DOWNLOAD" ;;;
        print (EQUALS_50 ++ NL) ;;;
        let command := ytdlp_command ytdlp output_template ffmpeg_path in
        try_except
          (subprocess_run command ;;;
           print (NL ++ "Download batch complete."))
          (fun e =>
             match e with
             | CalledProcessError returncode =>
                 Some (print ("yt-dlp encountered an error (Code: "
                              ++ pretty returncode ++ ")."))
             | KeyboardInterrupt =>
                 Some (print (NL ++ "Download cancelled by user."))
             | _ => None
             end)
    end.

(** *** Start-up checks (source lines 236-269) *)

Definition parse_args : M string :=
  match argv_outcome E with
  | ArgsParsed output_dir => ret output_dir
  | ArgsExit code => raise (SystemExit code)
  end.

Definition check_prerequisites : M unit :=
  print "--- Checking Prerequisites ---" ;;;
  cookies <- path_exists COOKIES_FILE ;;
  (if negb cookies then
     print (NL ++ "[CRITICAL ERROR] Cookies file not found: "
               ++ abspath E COOKIES_FILE) ;;;
     print "You must export your cookies as 'cookies.txt' and place them in the 'config' folder." ;;;
     print "Cannot proceed without cookies." ;;;
     raise (SystemExit 1)
   else
     print ("[OK] Cookies found: " ++ COOKIES_FILE)) ;;;
  archive <- path_exists ARCHIVE_FILE ;;
  (if negb archive then
     print (NL ++ "[WARNING] Archive file not found: " ++ abspath E ARCHIVE_FILE) ;;;
     print "yt-dlp will NOT be able to skip previously downloaded videos." ;;;
     print "A new archive file will be created after this run." ;;;
     print ("If this is your first run, you can ignore this warning." ++ NL) ;;;
     sleep 2000
   else
     print ("[OK] Archive found: " ++ ARCHIVE_FILE)) ;;;
  print ("------------------------------" ++ NL).

(** *** The main block (source lines 271-310) *)

(** [os.makedirs(path, exist_ok=True)]: an existing directory is left
    as it is; a regular file in the way raises [FileExistsError]; else
    the operating system creates the missing ancestors and the
    directory, or raises its [OSError], the ancestors created until
    then staying behind. *)
Definition makedirs (path : string) : M unit := fun w =>
  let w' := log (EvMakedirs path) w in
  let made (ds : list string) :=
    mkWorld (clock w') (trace w') (fs w') (total_urls w')
            (list_to_set ds ∪ dirs w') in
  if bool_decide (path ∈ dirs w) then Done tt w'
  else if bool_decide (is_Some (fs w !! path))
  then Raised (OSError ("[Errno 17] File exists: '" ++ path ++ "'")) w'
  else
    match mkdir E path with
    | DirsMade ancestors => Done tt (made (path :: ancestors))
    | MkdirError ancestors msg => Raised (OSError msg) (made ancestors)
    end.

(** [with open(path, "w") as f: pass]: the file exists and is empty. *)
Definition open_truncate (path : string) : M unit := fun w =>
  Done tt (mkWorld (clock w) (trace w ++ [EvOpenW path])%list
                   (<[path := ""]> (fs w)) (total_urls w) (dirs w)).

(** [open(path, "a")]: the file is created when absent, else untouched. *)
Definition open_append (path : string) : M unit := fun w =>
  Done tt (mkWorld (clock w) (trace w ++ [EvOpenA path])%list
                   (<[path := default "" (fs w !! path)]> (fs w))
                   (total_urls w) (dirs w)).

(** [f.write(data)] on a file opened for appending. *)
Definition file_write (path data : string) : M unit := fun w =>
  Done tt (mkWorld (clock w) (trace w ++ [EvWrite path data])%list
                   (<[path := default "" (fs w !! path) ++ data]> (fs w))
                   (total_urls w) (dirs w)).

Definition set_total_urls (n : nat) : M unit := fun w =>
  Done tt (mkWorld (clock w) (trace w) (fs w) n (dirs w)).

Definition get_total_urls : M nat := fun w => Done (total_urls w) w.

(** Lines 300-302: [for url in episode_urls: f.write(url + "\n"); total_urls += 1]. *)
Definition write_urls (episode_urls : list string) : M unit :=
  for_each episode_urls
    (fun u _ =>
       file_write OUTPUT_FILE (u ++ NL) ;;;
       n <- get_total_urls ;;
       set_total_urls (Datatypes.S n))
    tt.

(** Lines 294-304: the guarded scraping loop. *)
Definition scrape_and_write (fuel : nat) (series_list : list series) : M unit :=
  try_except
    (open_append OUTPUT_FILE ;;;
     for_each series_list
       (fun show _ =>
          episode_urls <- scrape_show_episodes fuel show ;;
          write_urls episode_urls)
       tt)
    (fun e =>
       match e with
       | KeyboardInterrupt =>
           Some (print (NL ++ "Scraping interrupted! Proceeding to download with whatever we found..."))
       | _ => None
       end).

Definition resolve_output_dir (arg : string) : string :=
  let script_dir := dirname E (abspath E (script_file E)) in
  let raw_output_dir := expandvars E (expanduser E arg) in
  if negb (isabs E raw_output_dir)
  then abspath E (path_join E script_dir raw_output_dir)
  else abspath E raw_output_dir.

Definition main (fuel : nat) : M unit :=
  args_output_dir <- parse_args ;;
  check_prerequisites ;;;
  let output_dir := resolve_output_dir args_output_dir in
  makedirs output_dir ;;;
  print ("Saving results to " ++ output_dir) ;;;
  series_list <- scrape_all_series fuel ;;
  print "--- Scraping Episodes & Writing to File ---" ;;;
  open_truncate OUTPUT_FILE ;;;
  set_total_urls 0 ;;;
  scrape_and_write fuel series_list ;;;
  total <- get_total_urls ;;
  print (NL ++ "Scraping Finished. Found " ++ pretty total ++ " links.") ;;;
  if bool_decide (0 < total)%nat then run_ytdlp output_dir
  else print "No URLs found. Exiting.".

End Program.

(** The status the operating system sees: 0 when the script runs off
    its end, the code of an uncaught [SystemExit], the SIGINT status for
    an uncaught [KeyboardInterrupt] and 1 for any other traceback.  A
    run that is still going has none. *)
Definition exit_status (r : result unit) : option Z :=
  match r with
  | Done _ _ => Some 0
  | Raised (SystemExit code) _ => Some code
  | Raised KeyboardInterrupt _ => Some 130
  | Raised _ _ => Some 1
  | OutOfFuel _ => None
  end.

(** ** Vocabulary of the properties *)

(** The world a computation stops in, whatever way it stops. *)
Definition world_of {A} (r : result A) : World :=
  match r with
  | Done _ w => w
  | Raised _ w => w
  | OutOfFuel w => w
  end.

(** The targets of the requests in a stretch of trace, in order. *)
Definition gets (evs : list event) : list string :=
  omap (fun e => match e with EvGet t _ => Some t | _ => None end) evs.

(** [blocking_get] returns a response when it is not an error status,
    or when it is the boundary status and the flag is set. *)
Definition fetch_done (allow_400_stop : bool) (r : response) : bool :=
  (allow_400_stop && (status_code r =? 400))
  || negb ((400 <=? status_code r) && (status_code r <? 600)).

(** The failures [blocking_get] retries on: an error status, or an
    exception of the [RequestException] family. *)
Definition transient_failure (allow_400_stop : bool) (o : net_outcome) : bool :=
  match o with
  | NetResponse r => negb (fetch_done allow_400_stop r)
  | NetError _ => true
  | NetInterrupt => false
  end.

Definition failure_message (o : net_outcome) : string :=
  match o with
  | NetResponse r =>
      "HTTP " ++ pretty (status_code r) ++ " error, retrying slowly..."
  | NetError msg => "Network error (" ++ msg ++ "), retrying slowly..."
  | NetInterrupt => ""
  end.

(** What [n] failed attempts starting at request number [c] leave in the
    trace: each one announces itself, sends the request, reports the
    failure and sleeps the doubled delay. *)
Fixpoint retry_events (E : Env) (u : string) (c n : nat) : list event :=
  match n with
  | O => []
  | Datatypes.S n' =>
      [ EvPrint ("[GET] " ++ u); EvGet u TIMEOUT;
        EvPrint (failure_message (net E c u)); EvSleep (REQUEST_DELAY * 2) ]
      ++ retry_events E u (Datatypes.S c) n'
  end%list.

Definition retried (E : Env) (u : string) (w : World) (n : nat) : World :=
  mkWorld (clock w + n)%nat (trace w ++ retry_events E u (clock w) n)%list
          (fs w) (total_urls w) (dirs w).

(** The last, successful attempt: the polite delay is slept unless the
    boundary status short-circuits. *)
Definition fetched (u : string) (allow_400_stop : bool) (r : response)
    (w : World) : World :=
  mkWorld (Datatypes.S (clock w))
          (trace w ++ [EvPrint ("[GET] " ++ u); EvGet u TIMEOUT]
             ++ (if allow_400_stop && (status_code r =? 400) then []
                 else [EvSleep REQUEST_DELAY]))%list
          (fs w) (total_urls w) (dirs w).

(** A result that is a return or an exception, not an exhausted fuel. *)
Definition finished {A} (r : result A) : Prop :=
  match r with
  | OutOfFuel _ => False
  | _ => True
  end.

(** [iterates body n s w s' w']: [n] turns of a loop body, each asking
    for another turn, lead from state [s] in world [w] to [s'] in [w']. *)
Inductive iterates {S A} (body : S -> M (S + A))
  : nat -> S -> World -> S -> World -> Prop :=
| iterates_O s w : iterates body 0 s w s w
| iterates_S n s w s1 w1 s2 w2 :
    body s w = Done (inl s1) w1 ->
    iterates body n s1 w1 s2 w2 ->
    iterates body (Datatypes.S n) s w s2 w2.

(** [keeps R m]: however [m] stops, its last world is [R]-related to
    the one it started in. *)
Definition keeps {A} (R : World -> World -> Prop) (m : M A) : Prop :=
  forall w, R w (world_of (m w)).

(** [raises_only Q m]: every exception that escapes [m] satisfies [Q]. *)
Definition raises_only {A} (Q : exn -> Prop) (m : M A) : Prop :=
  forall w e w', m w = Raised e w' -> Q e.

(** The one exception the scrapers let through. *)
Definition interrupt (e : exn) : Prop := e = KeyboardInterrupt.

(** [extends P w w']: [w'] is [w] after some events, all in [P], with
    the files, the URL counter and the directories untouched. *)
Definition extends (P : event -> Prop) (w w' : World) : Prop :=
  exists evs, trace w' = (trace w ++ evs)%list /\ Forall P evs /\
              fs w' = fs w /\ total_urls w' = total_urls w /\
              dirs w' = dirs w.

(** [prepares P w w']: the same, except that directories may have been
    created. *)
Definition prepares (P : event -> Prop) (w w' : World) : Prop :=
  exists evs, trace w' = (trace w ++ evs)%list /\ Forall P evs /\
              fs w' = fs w /\ total_urls w' = total_urls w /\
              dirs w ⊆ dirs w'.

(** The directories [os.makedirs] leaves behind on a fresh path. *)
Definition made_dirs (E : Env) (path : string) : list string :=
  match mkdir E path with
  | DirsMade ancestors => path :: ancestors
  | MkdirError ancestors _ => ancestors
  end.

(** The directories a run may create: those of the one [os.makedirs]
    call, on the resolved output directory. *)
Definition run_dirs (E : Env) : gset string :=
  match argv_outcome E with
  | ArgsParsed arg => list_to_set (made_dirs E (resolve_output_dir E arg))
  | ArgsExit _ => ∅
  end.

(** [grows D w w']: between [w] and [w'] no directory was removed, and
    every directory that was created is in [D]. *)
Definition grows (D : gset string) (w w' : World) : Prop :=
  dirs w ⊆ dirs w' /\ dirs w' ⊆ dirs w ∪ D.

(** Console output and waiting. *)
Definition console_event (e : event) : Prop :=
  match e with
  | EvPrint _ | EvSleep _ => True
  | _ => False
  end.

(** Console output, waiting and requests: what scraping does. *)
Definition scrape_event (e : event) : Prop :=
  match e with
  | EvPrint _ | EvSleep _ | EvGet _ _ => True
  | _ => False
  end.

(** Console output and the launch of the downloader. *)
Definition dispatch_event (e : event) : Prop :=
  match e with
  | EvPrint _ | EvRun _ => True
  | _ => False
  end.

(** *** The series index *)

(** What the loop of [scrape_all_series] holds after merging the
    batches of the pages seen so far. *)
Definition collected (batches : list (list series)) : list series :=
  (foldl merge_batch ([], ∅) batches).1.

(** The invariant of the pair [(all_series, seen)]: no URL twice in the
    list, and [seen] is exactly the set of its URLs. *)
Definition series_inv (st : list series * gset string) : Prop :=
  NoDup (url <$> st.1) /\ forall u, u ∈ st.2 <-> u ∈ url <$> st.1.

Definition has_url (u : string) (s : series) : bool :=
  bool_decide (url s = u).

(** The merged list against the entries in the order they were seen:
    it is a sub-list of them, and for every URL the entry it holds is
    the first one seen with that URL. *)
Definition first_seen (acc : list series) (seen : list series) : Prop :=
  sublist acc seen /\
  forall u, List.find (has_url u) acc = List.find (has_url u) seen.

(** [pages_listed E fuel p w batches w']: from world [w], the index
    pages [p], [p+1], ... are fetched one after the other, each one
    being a listing (not the boundary status) that parses to the next
    batch, and the last fetch leaves world [w']. *)
Inductive pages_listed (E : Env) (fuel : nat)
  : nat -> World -> list (list series) -> World -> Prop :=
| pages_nil p w : pages_listed E fuel p w [] w
| pages_cons p w batch w1 rest w2 :
    get_series_from_page E fuel p w = Done (Some batch) w1 ->
    pages_listed E fuel (Datatypes.S p) w1 rest w2 ->
    pages_listed E fuel p w (batch :: rest) w2.

(** *** The season pages *)

(** [seasons_listed E fuel show_url n w pages w']: from world [w], the
    season pages [n], [n+1], ... of a show are fetched one after the
    other, each one yielding at least one episode link. *)
Inductive seasons_listed (E : Env) (fuel : nat) (show_url : string)
  : nat -> World -> list (list string) -> World -> Prop :=
| seasons_nil n w : seasons_listed E fuel show_url n w [] w
| seasons_cons n w links w1 rest w2 :
    get_episode_links E fuel show_url n w = Done links w1 ->
    links <> [] ->
    seasons_listed E fuel show_url (Datatypes.S n) w1 rest w2 ->
    seasons_listed E fuel show_url n w (links :: rest) w2.

(** The requests of a season walk that starts at [season]: the page of
    each season is requested once more than it failed, season after
    season. *)
Fixpoint probes (show_url : string) (season : nat) (failures : list nat)
  : list string :=
  match failures with
  | [] => []
  | k :: rest =>
      (replicate (Datatypes.S k) (season_url show_url season)
       ++ probes show_url (Datatypes.S season) rest)%list
  end.

(** *** Start-up and dispatch *)

(** The world after the four lines [check_prerequisites] prints when
    the cookie file is missing. *)
Definition cookies_missing_reported (E : Env) (w : World) : World :=
  mkWorld (clock w)
    (trace w ++
     [ EvPrint "--- Checking Prerequisites ---";
       EvPrint (NL ++ "[CRITICAL ERROR] Cookies file not found: "
                   ++ abspath E COOKIES_FILE);
       EvPrint "You must export your cookies as 'cookies.txt' and place them in the 'config' folder.";
       EvPrint "Cannot proceed without cookies." ])%list
    (fs w) (total_urls w) (dirs w).

(** What [resolve_binary] answers in a world (it only looks). *)
Definition resolved (E : Env) (names : list string) (w : World) : option string :=
  match resolve_binary E names w with
  | Done o _ => o
  | _ => None
  end.

Definition ytdlp_candidates (E : Env) : list string :=
  if os_name_nt E then ["yt-dlp.exe"; "yt-dlp"] else ["yt-dlp"].

Definition ffmpeg_candidates (E : Env) : list string :=
  if os_name_nt E then ["ffmpeg.exe"; "ffmpeg"] else ["ffmpeg"].

(** The command line [run_ytdlp] builds in a world where the downloader
    resolves to [ytdlp]. *)
Definition dispatch_command (E : Env) (output_dir ytdlp : string) (w : World)
  : list string :=
  ytdlp_command ytdlp
    (path_join E output_dir
       "%(series)s/Season %(season_number)02d/%(episode_number)02d - %(episode)s.%(ext)s")
    (resolved E (ffmpeg_candidates E) w).

(** The world when the downloader has just been launched. *)
Definition launched (command : list string) (w : World) : World :=
  mkWorld (clock w)
    (trace w ++
     [ EvPrint (NL ++ EQUALS_50);
       EvPrint "STARTING YT-DLP DOWNLOAD";
       EvPrint (EQUALS_50 ++ NL);
       EvRun command ])%list
    (fs w) (total_urls w) (dirs w).

(** Only console output. *)
Definition print_event (e : event) : Prop :=
  match e with
  | EvPrint _ => True
  | _ => False
  end.

(** *** The output file *)

(** The data written to the output file in a stretch of trace. *)
Definition writes (evs : list event) : list string :=
  omap (fun e => match e with
                 | EvWrite p data =>
                     if bool_decide (p = OUTPUT_FILE) then Some data else None
                 | _ => None
                 end) evs.

(** The content of the output file, empty when it does not exist. *)
Definition content (w : World) : string := default "" (fs w !! OUTPUT_FILE).

(** One line per URL, as [f.write(url + "\n")] makes them. *)
Definition lines (urls : list string) : list string :=
  (fun u => u ++ NL) <$> urls.

Definition concat_str (l : list string) : string := foldr String.append "" l.

(** Events that leave every file alone. *)
Definition no_file_event (e : event) : Prop :=
  match e with
  | EvOpenW _ | EvOpenA _ | EvWrite _ _ => False
  | _ => True
  end.

(** Events that do not truncate a file. *)
Definition no_truncation (e : event) : Prop :=
  match e with
  | EvOpenW _ => False
  | _ => True
  end.

(** [appends urls w w']: between [w] and [w'] the lines of [urls], and
    nothing else, were written to the output file, which was appended
    to and never truncated; the counter grew by their number. *)
Definition appends (urls : list string) (w w' : World) : Prop :=
  exists evs,
    trace w' = (trace w ++ evs)%list /\
    Forall no_truncation evs /\
    writes evs = lines urls /\
    content w' = content w ++ concat_str (lines urls) /\
    (is_Some (fs w !! OUTPUT_FILE) -> is_Some (fs w' !! OUTPUT_FILE)) /\
    total_urls w' = (total_urls w + length urls)%nat.

(** [season_page E show n links]: the environment serves, for season
    [n] of the show, a page that [blocking_get] returns, and [links]
    are the [href]s of its episode links in page order, each joined to
    the URL of the show. *)
Definition season_page (E : Env) (show : series) (n : nat)
    (links : list string) : Prop :=
  exists c r,
    net E c (season_url (url show) n) = NetResponse r /\
    fetch_done false r = true /\
    links = map (urljoin E (url show)) (episode_hrefs E (text r)).

(** [show_urls E show urls]: the URLs of a show, season 1 first. *)
Definition show_urls (E : Env) (show : series) (urls : list string) : Prop :=
  exists pages,
    urls = concat pages /\
    forall j links, pages !! j = Some links ->
                    season_page E show (Datatypes.S j) links.

(** *** The phases of the main block *)

(** Lines 272-286: arguments, prerequisites, output directory. *)
Definition startup (E : Env) : M string :=
  args_output_dir <- parse_args E ;;
  check_prerequisites E ;;;
  let output_dir := resolve_output_dir E args_output_dir in
  makedirs E output_dir ;;;
  print ("Saving results to " ++ output_dir) ;;;
  ret output_dir.

(** Lines 289-293, on the world the index walk ended in: the output
    file is rewritten empty and the counter reset. *)
Definition truncated (w : World) : World :=
  mkWorld (clock w)
    (trace w ++ [ EvPrint "--- Scraping Episodes & Writing to File ---";
                  EvOpenW OUTPUT_FILE ])%list
    (<[OUTPUT_FILE := ""]> (fs w)) 0 (dirs w).

(** Lines 306-310: the report and the download phase. *)
Definition finish (E : Env) (output_dir : string) : M unit :=
  total <- get_total_urls ;;
  print (NL ++ "Scraping Finished. Found " ++ pretty total ++ " links.") ;;;
  if bool_decide (0 < total)%nat then run_ytdlp E output_dir
  else print "No URLs found. Exiting.".

(** *** URLs *)

Definition lower_ascii (c : Ascii.ascii) : Ascii.ascii :=
  let n := Ascii.nat_of_ascii c in
  if (65 <=? n)%nat && (n <=? 90)%nat then Ascii.ascii_of_nat (n + 32) else c.

Fixpoint lower (s : string) : string :=
  match s with
  | EmptyString => EmptyString
  | String c s' => String (lower_ascii c) (lower s')
  end.

(** URLs that start with [http://] or [https://], in any letter case:
    the ones the network of the scenarios below has a transport for. *)
Definition http_url (u : string) : bool :=
  String.prefix "http://" (lower u) || String.prefix "https://" (lower u).

Definition is_alpha (c : Ascii.ascii) : bool :=
  let n := Ascii.nat_of_ascii (lower_ascii c) in (97 <=? n)%nat && (n <=? 122)%nat.

Definition scheme_char (c : Ascii.ascii) : bool :=
  let n := Ascii.nat_of_ascii c in
  is_alpha c || ((48 <=? n)%nat && (n <=? 57)%nat)
  || (n =? 43)%nat || (n =? 45)%nat || (n =? 46)%nat.

Fixpoint scheme_rest (s : string) : bool :=
  match s with
  | EmptyString => false
  | String c s' =>
      if (Ascii.nat_of_ascii c =? 58)%nat then true
      else scheme_char c && scheme_rest s'
  end.

(** An absolute URL starts with a scheme: a letter, then letters,
    digits, [+], [-] or [.], then a colon (RFC 3986, section 3.1). *)
Definition absolute_url (u : string) : bool :=
  match u with
  | EmptyString => false
  | String c s' => is_alpha c && scheme_rest s'
  end.

(** [joins_absolute E show]: on every season page the environment
    serves for the show, [urljoin] makes an absolute URL of each episode
    link it is given together with the URL of the show. *)
Definition joins_absolute (E : Env) (show : series) : Prop :=
  forall n c r href,
    net E c (season_url (url show) n) = NetResponse r ->
    href ∈ episode_hrefs E (text r) ->
    absolute_url (urljoin E (url show) href) = true.

(** *** Launches, waiting and pace *)

(** The command lines of the downloader launches in a stretch of trace. *)
Definition runs (evs : list event) : list (list string) :=
  omap (fun e => match e with EvRun command => Some command | _ => None end) evs.

(** The time waited in a stretch of trace, in milliseconds. *)
Definition slept (evs : list event) : Z :=
  foldr (fun e acc => match e with EvSleep ms => ms + acc | _ => acc end) 0 evs.

(** [tidy w w']: between [w] and [w'] the downloader was not launched
    and no file but the output file was created, changed or removed. *)
Definition tidy (w w' : World) : Prop :=
  (exists evs, trace w' = (trace w ++ evs)%list /\ runs evs = [])
  /\ forall p, p <> OUTPUT_FILE -> fs w' !! p = fs w !! p.

(** Events that are not a launch of the downloader. *)
Definition no_launch_event (e : event) : Prop :=
  match e with
  | EvRun _ => False
  | _ => True
  end.

(** [pace rested evs] reads a stretch of trace as a rate limiter would:
    a request is in order only when the script is rested, that is when
    it has slept at least [REQUEST_DELAY] in one go since the previous
    request (or has sent none yet).  The result is [None] when a request
    comes too early, else whether the script is rested at the end. *)
Fixpoint pace (rested : bool) (evs : list event) : option bool :=
  match evs with
  | [] => Some rested
  | EvGet _ _ :: evs' => if rested then pace false evs' else None
  | EvSleep ms :: evs' => pace (rested || (REQUEST_DELAY <=? ms)) evs'
  | _ :: evs' => pace rested evs'
  end.

(** [paced w r]: from a rested start in [w], the computation that ended
    in [r] sent no request too early; [rested_after] adds that it is
    rested again whenever it goes on (returns, or has run out of fuel). *)
Definition paced {A} (w : World) (r : result A) : Prop :=
  exists evs b, trace (world_of r) = (trace w ++ evs)%list /\
                pace true evs = Some b.

Definition rested_after {A} (w : World) (r : result A) : Prop :=
  exists evs b, trace (world_of r) = (trace w ++ evs)%list /\
                pace true evs = Some b /\
                match r with Raised _ _ => True | _ => b = true end.

(** [shows_done E fuel shows w per_show w']: from world [w], the shows
    of the list are scraped and written one after the other, none being
    interrupted, and [per_show] are their URLs. *)
Inductive shows_done (E : Env) (fuel : nat)
  : list series -> World -> list (list string) -> World -> Prop :=
| shows_done_nil w : shows_done E fuel [] w [] w
| shows_done_cons show shows w eps w1 w2 per_show w3 :
    scrape_show_episodes E fuel show w = Done eps w1 ->
    write_urls eps w1 = Done tt w2 ->
    shows_done E fuel shows w2 per_show w3 ->
    shows_done E fuel (show :: shows) w (eps :: per_show) w3.

(** ** Scenarios

    Small concrete worlds on which the statements below are exercised. *)

Definition show_a : string := "https://watch.dropout.tv/game-changer".
Definition show_b : string := "https://watch.dropout.tv/um-actually".

(** Two index pages, the second repeating the first show under another
    title, then the boundary status; the first show has one season of
    three episodes, the second show has none. *)
Definition catalog_items (page_text : string) : list item :=
  if String.eqb page_text "index-1"
  then [ Item (Some show_a) (Some "Game Changer"); Item None (Some "Banner");
         Item (Some show_b) None ]
  else if String.eqb page_text "index-2"
  then [ Item (Some show_a) (Some "Game Changer (again)") ]
  else [].

Definition catalog_hrefs (page_text : string) : list string :=
  if String.eqb page_text "season-a-1"
  then [ "/game-changer/season:1/videos/one";
         "/game-changer/season:1/videos/two";
         "https://watch.dropout.tv/game-changer/season:1/videos/three" ]
  else [].

(** The third request of a run times out; everything else is answered. *)
Definition catalog_net (n : nat) (u : string) : net_outcome :=
  if negb (http_url u) then NetError "No connection adapters were found"
  else if bool_decide (n = 2%nat) then NetError "Read timed out"
  else if String.eqb u SERIES_INDEX then NetResponse (Response 200 "index-1")
  else if String.eqb u (SERIES_INDEX ++ "?page=2")
  then NetResponse (Response 200 "index-2")
  else if String.eqb u (SERIES_INDEX ++ "?page=3") then NetResponse (Response 400 "")
  else if String.eqb u (show_a ++ "/season:1")
  then NetResponse (Response 200 "season-a-1")
  else NetResponse (Response 200 "nothing here").

(** [urljoin] on the data of the scenarios: a link with a scheme is
    kept; a path is resolved against the host of the base, which is
    [BASE_URL] whenever the base has a scheme; against a base without a
    scheme the path stays as it is. *)
Definition catalog_urljoin (base href : string) : string :=
  if absolute_url href then href
  else if absolute_url base then BASE_URL ++ href
  else href.

Definition scenario (network : nat -> string -> net_outcome)
    (items : string -> list item)
    (args : args_outcome) (search_path : string -> option string)
    (downloader : list string -> proc_outcome) : Env :=
  {| net := network;
     series_items := items;
     episode_hrefs := catalog_hrefs;
     urljoin := catalog_urljoin;
     os_name_nt := false;
     which := search_path;
     abspath := fun p =>
       if String.prefix "/" p then p else "/home/user/dropout/" ++ p;
     expanduser := fun p => p;
     expandvars := fun p => p;
     isabs := fun p => String.prefix "/" p;
     path_join := fun a b => a ++ "/" ++ b;
     script_file := "download_dropout.py";
     dirname := fun _ => "/home/user/dropout";
     argv_outcome := args;
     proc := downloader;
     mkdir := fun _ => DirsMade [] |}.

Definition on_path (name : string) : option string :=
  if String.eqb name "yt-dlp" then Some "/usr/bin/yt-dlp" else None.

Definition not_on_path (name : string) : option string := None.

(** The catalog above, the downloader installed and succeeding. *)
Definition catalog : Env :=
  scenario catalog_net catalog_items (ArgsParsed "Dropout") on_path
           (fun _ => ProcExit 0).

(** The same catalog with a downloader that fails. *)
Definition catalog_failing_download : Env :=
  scenario catalog_net catalog_items (ArgsParsed "Dropout") on_path
           (fun _ => ProcExit 1).

(** The same catalog with the downloader found only as a plain file of
    the working directory, which the system refuses to execute. *)
Definition catalog_unlaunchable : Env :=
  scenario catalog_net catalog_items (ArgsParsed "Dropout") not_on_path
           (fun _ => ProcLaunchError "[Errno 13] Permission denied").

(** A catalog whose index lists no series at all. *)
Definition empty_catalog : Env :=
  scenario catalog_net (fun _ => []) (ArgsParsed "Dropout") on_path
           (fun _ => ProcExit 0).

(** The script started with [--help]. *)
Definition help_requested : Env :=
  scenario catalog_net catalog_items (ArgsExit 0) on_path (fun _ => ProcExit 0).

(** A site that is down for good. *)
Definition site_down : Env :=
  scenario (fun _ _ => NetError "Connection refused") catalog_items
           (ArgsParsed "Dropout") on_path (fun _ => ProcExit 0).

(** Start of a run with both configuration files in place and a URL
    file left by an earlier run. *)
Definition ready : World :=
  mkWorld 0 []
    {[ COOKIES_FILE := "# Netscape HTTP Cookie File";
       ARCHIVE_FILE := "";
       OUTPUT_FILE := "https://watch.dropout.tv/old-show/season:1/videos/old" ++ NL ]}
    0 {[ "config" ]}.

(** The same without the cookie file. *)
Definition without_cookies : World :=
  mkWorld 0 []
    {[ OUTPUT_FILE := "https://watch.dropout.tv/old-show/season:1/videos/old" ++ NL ]}
    0 ∅.

(** The same with the downloader dropped into the working directory. *)
Definition with_local_downloader : World :=
  mkWorld 0 []
    {[ COOKIES_FILE := "# Netscape HTTP Cookie File";
       ARCHIVE_FILE := "";
       "/home/user/dropout/yt-dlp" := "#!/usr/bin/env python3" ]}
    0 {[ "config" ]}.

(** A site whose index answers every page number with the same listing
    and whose season pages all list the same three episodes. *)
Definition endless_net (n : nat) (u : string) : net_outcome :=
  if String.prefix SERIES_INDEX u then NetResponse (Response 200 "index-1")
  else NetResponse (Response 200 "season-a-1").

Definition endless_catalog : Env :=
  scenario endless_net catalog_items (ArgsParsed "Dropout") on_path
           (fun _ => ProcExit 0).

(** A site that answers a missing season with the status 404. *)
Definition strict_net (n : nat) (u : string) : net_outcome :=
  if String.eqb u (show_a ++ "/season:2") then NetResponse (Response 404 "")
  else catalog_net n u.

Definition strict_catalog : Env :=
  scenario strict_net catalog_items (ArgsParsed "Dropout") on_path
           (fun _ => ProcExit 0).

(** The catalog with the user interrupting the seventh request, which
    is the first one for the second show. *)
Definition interrupted_net (n : nat) (u : string) : net_outcome :=
  if bool_decide (n = 6%nat) then NetInterrupt else catalog_net n u.

Definition interrupted_catalog : Env :=
  scenario interrupted_net catalog_items (ArgsParsed "Dropout") on_path
           (fun _ => ProcExit 0).

(** A machine with the downloader in the working directory and the
    muxer on the search path. *)
Definition muxer_on_path (name : string) : option string :=
  if String.eqb name "ffmpeg" then Some "/usr/bin/ffmpeg" else None.

Definition local_tools : Env :=
  scenario catalog_net catalog_items (ArgsParsed "Dropout") muxer_on_path
           (fun _ => ProcExit 0).

(** A catalog whose one series link starts with a no-break space
    (U+00A0, two bytes in UTF-8), as a stray [&nbsp;] in the markup
    gives.  [requests] strips white space from a URL before it sends
    the request, so the season pages of the show are served; [urljoin]
    does not, so to it the URL of the show has no scheme. *)
Definition NBSP : string :=
  String (Ascii.ascii_of_nat 194) (String (Ascii.ascii_of_nat 160) "").

Definition padded_show : string := NBSP ++ show_a.

Definition padded_items (page_text : string) : list item :=
  if String.eqb page_text "index-1"
  then [ Item (Some padded_show) (Some "Game Changer") ]
  else [].

Definition padded_net (n : nat) (u : string) : net_outcome :=
  if String.eqb u SERIES_INDEX then NetResponse (Response 200 "index-1")
  else if String.prefix SERIES_INDEX u then NetResponse (Response 400 "")
  else if String.eqb u (padded_show ++ "/season:1")
  then NetResponse (Response 200 "season-a-1")
  else NetResponse (Response 200 "nothing here").

Definition padded_catalog : Env :=
  scenario padded_net padded_items (ArgsParsed "Dropout") on_path
           (fun _ => ProcExit 0).

(** The catalog started with [-o /dev/null/media]: the output
    directory cannot be created, its parent being no directory. *)
Definition catalog_no_output_dir : Env :=
  {| net := catalog_net;
     series_items := catalog_items;
     episode_hrefs := catalog_hrefs;
     urljoin := catalog_urljoin;
     os_name_nt := false;
     which := on_path;
     abspath := abspath catalog;
     expanduser := fun p => p;
     expandvars := fun p => p;
     isabs := isabs catalog;
     path_join := path_join catalog;
     script_file := script_file catalog;
     dirname := dirname catalog;
     argv_outcome := ArgsParsed "/dev/null/media";
     proc := fun _ => ProcExit 0;
     mkdir := fun p =>
       MkdirError [] ("[Errno 20] Not a directory: '" ++ p ++ "'") |}.

(** The index walk of the catalog: the batches of its two listing
    pages, the world after the second one and the world after the
    boundary answer to the request for the third. *)
Definition catalog_batches : list (list series) :=
  [ [Series "Game Changer" show_a; Series "Unknown" show_b];
    [Series "Game Changer (again)" show_a] ].

Definition catalog_listed : World :=
  world_of (get_series_from_page catalog 4 2
    (world_of (get_series_from_page catalog 4 1
       (log (EvPrint "--- Finding all Series ---") ready)))).

Definition catalog_boundary : World :=
  world_of (get_series_from_page catalog 4 3 catalog_listed).

(** ** Reasoning about the monad *)

Lemma bind_Done {A B} (m : M A) (k : A -> M B) w a w' :
  m w = Done a w' -> bind m k w = k a w'.
Proof. intros H. unfold bind. by rewrite H. Qed.

Lemma bind_Raised {A B} (m : M A) (k : A -> M B) w e w' :
  m w = Raised e w' -> bind m k w = Raised e w'.
Proof. intros H. unfold bind. by rewrite H. Qed.

Lemma bind_OutOfFuel {A B} (m : M A) (k : A -> M B) w w' :
  m w = OutOfFuel w' -> bind m k w = OutOfFuel w'.
Proof. intros H. unfold bind. by rewrite H. Qed.

Lemma while_true_S {S A} fuel (body : S -> M (S + A)) s w :
  while_true (Datatypes.S fuel) body s w =
  match body s w with
  | Done (inl s') w' => while_true fuel body s' w'
  | Done (inr a) w' => Done a w'
  | Raised e w' => Raised e w'
  | OutOfFuel w' => OutOfFuel w'
  end.
Proof.
  simpl. unfold bind. destruct (body s w) as [[s'|a] w'|e w'|w']; reflexivity.
Qed.

(** ** [blocking_get] *)

Section BlockingGet.
Variable E : Env.

(** The four ways one attempt can go. *)
Lemma blocking_get_attempt_cases u allow w :
  blocking_get_attempt E u allow w =
  match net E (clock w) u with
  | NetResponse r =>
      if fetch_done allow r then Done (Some r) (fetched u allow r w)
      else Done None (retried E u w 1)
  | NetError msg => Done None (retried E u w 1)
  | NetInterrupt =>
      Raised KeyboardInterrupt
        (mkWorld (Datatypes.S (clock w))
                 (trace w ++ [EvPrint ("[GET] " ++ u); EvGet u TIMEOUT])
                 (fs w) (total_urls w) (dirs w))
  end.
Proof.
  unfold blocking_get_attempt, try_except, bind, print, sleep, emit,
    session_get, retried, fetched, fetch_done, raise_for_status, raise, ret, log.
  simpl. rewrite Nat.add_1_r.
  destruct (net E (clock w) u) as [r|msg|] eqn:Hnet; simpl.
  - destruct (allow && (status_code r =? 400)) eqn:Hstop; simpl.
    + by rewrite <- !app_assoc.
    + destruct ((400 <=? status_code r) && (status_code r <? 600)) eqn:Herr.
      all: simpl.
      all: rewrite ?Hstop; simpl; rewrite ?Hnet; simpl.
      all: by rewrite <- !app_assoc.
  - rewrite ?Hnet. simpl. by rewrite <- !app_assoc.
  - by rewrite <- !app_assoc.
Qed.

Lemma blocking_get_S fuel u allow w :
  blocking_get E (Datatypes.S fuel) u allow w =
  match blocking_get_attempt E u allow w with
  | Done (Some r) w' => Done r w'
  | Done None w' => blocking_get E fuel u allow w'
  | Raised e w' => Raised e w'
  | OutOfFuel w' => OutOfFuel w'
  end.
Proof.
  unfold blocking_get. rewrite while_true_S. unfold bind at 1.
  destruct (blocking_get_attempt E u allow w) as [[r|] w'|e w'|w']; reflexivity.
Qed.

Lemma retried_0 u w : retried E u w 0 = w.
Proof.
  unfold retried. simpl. rewrite Nat.add_0_r, app_nil_r. by destruct w.
Qed.

Lemma retried_S u w n :
  retried E u (retried E u w 1) n = retried E u w (Datatypes.S n).
Proof.
  unfold retried. simpl. f_equal; [lia|].
  rewrite Nat.add_1_r, <- app_assoc. reflexivity.
Qed.

(** As long as the attempts fail, the loop is still running. *)
Lemma blocking_get_failing u allow n : forall w,
  (forall k, (k < n)%nat ->
     transient_failure allow (net E (clock w + k) u) = true) ->
  blocking_get E n u allow w = OutOfFuel (retried E u w n).
Proof.
  induction n as [|n IH]; intros w Hfail.
  - by rewrite retried_0.
  - rewrite blocking_get_S, blocking_get_attempt_cases.
    pose proof (Hfail 0%nat ltac:(lia)) as H0. rewrite Nat.add_0_r in H0.
    assert (Hrest : forall k, (k < n)%nat ->
              transient_failure allow
                (net E (clock (retried E u w 1) + k) u) = true).
    { intros k Hk. simpl. replace (clock w + 1 + k)%nat with (clock w + S k)%nat by lia.
      apply Hfail. lia. }
    destruct (net E (clock w) u) as [r|msg|]; simpl in H0; try discriminate.
    + apply negb_true_iff in H0. rewrite H0.
      rewrite (IH _ Hrest). by rewrite retried_S.
    + rewrite (IH _ Hrest). by rewrite retried_S.
Qed.

(** The first attempt that succeeds ends the call, however late it comes. *)
Lemma blocking_get_succeeds u allow n r : forall w fuel,
  (forall k, (k < n)%nat ->
     transient_failure allow (net E (clock w + k) u) = true) ->
  net E (clock w + n) u = NetResponse r ->
  fetch_done allow r = true ->
  (n < fuel)%nat ->
  blocking_get E fuel u allow w = Done r (fetched u allow r (retried E u w n)).
Proof.
  induction n as [|n IH]; intros w fuel Hfail Hnet Hok Hfuel;
    (destruct fuel as [|fuel]; [lia|]);
    rewrite blocking_get_S, blocking_get_attempt_cases.
  - rewrite Nat.add_0_r in Hnet. rewrite Hnet, Hok. by rewrite retried_0.
  - pose proof (Hfail 0%nat ltac:(lia)) as H0. rewrite Nat.add_0_r in H0.
    assert (IH' : blocking_get E fuel u allow (retried E u w 1) =
                  Done r (fetched u allow r (retried E u w (S n)))).
    { rewrite <- (retried_S u w n). apply IH; [| |done|lia].
      - intros k Hk. simpl.
        replace (clock w + 1 + k)%nat with (clock w + S k)%nat by lia.
        apply Hfail. lia.
      - simpl. by replace (clock w + 1 + n)%nat with (clock w + S n)%nat by lia. }
    destruct (net E (clock w) u) as [r0|msg|]; simpl in H0; try discriminate.
    + apply negb_true_iff in H0. by rewrite H0.
    + done.
Qed.

(** A call that returns has seen a success after finitely many failures. *)
Lemma blocking_get_Done_inv u allow fuel : forall w r w',
  blocking_get E fuel u allow w = Done r w' ->
  exists n, (n < fuel)%nat /\
    (forall k, (k < n)%nat ->
       transient_failure allow (net E (clock w + k) u) = true) /\
    net E (clock w + n) u = NetResponse r /\
    fetch_done allow r = true /\
    w' = fetched u allow r (retried E u w n).
Proof.
  induction fuel as [|fuel IH]; intros w r w' Hrun; [discriminate|].
  rewrite blocking_get_S, blocking_get_attempt_cases in Hrun.
  destruct (net E (clock w) u) as [r0|msg|] eqn:Hnet; [| |discriminate].
  - destruct (fetch_done allow r0) eqn:Hok.
    + injection Hrun as <- <-. exists 0%nat.
      rewrite Nat.add_0_r, retried_0. split_and!; [lia| |done..].
      intros k Hk. lia.
    + destruct (IH _ _ _ Hrun) as (n & Hn & Hfail & Hlast & Hdone & ->).
      exists (S n). simpl in Hfail, Hlast. split_and!; [lia| | |done|].
      * intros [|k] Hk.
        -- rewrite Nat.add_0_r, Hnet. simpl. by rewrite Hok.
        -- replace (clock w + S k)%nat with (clock w + 1 + k)%nat by lia.
           apply Hfail. lia.
      * by replace (clock w + S n)%nat with (clock w + 1 + n)%nat by lia.
      * by rewrite retried_S.
  - destruct (IH _ _ _ Hrun) as (n & Hn & Hfail & Hlast & Hdone & ->).
    exists (S n). simpl in Hfail, Hlast. split_and!; [lia| | |done|].
    * intros [|k] Hk.
      -- by rewrite Nat.add_0_r, Hnet.
      -- replace (clock w + S k)%nat with (clock w + 1 + k)%nat by lia.
         apply Hfail. lia.
    * by replace (clock w + S n)%nat with (clock w + 1 + n)%nat by lia.
    * by rewrite retried_S.
Qed.

End BlockingGet.

(** ** Loops *)

Lemma while_true_iterates {S A} (body : S -> M (S + A)) n : forall s w s' w' a w'' fuel,
  iterates body n s w s' w' ->
  body s' w' = Done (inr a) w'' ->
  (n < fuel)%nat ->
  while_true fuel body s w = Done a w''.
Proof.
  induction n as [|n IH]; intros s w s' w' a w'' fuel Hit Hlast Hfuel;
    (destruct fuel as [|fuel]; [lia|]); rewrite while_true_S; inversion Hit; subst.
  - by rewrite Hlast.
  - match goal with H : body s w = _ |- _ => rewrite H end.
    eapply IH; eauto. lia.
Qed.

Lemma while_true_Done_inv {S A} (body : S -> M (S + A)) fuel : forall s w a w'',
  while_true fuel body s w = Done a w'' ->
  exists n s' w', (n < fuel)%nat /\ iterates body n s w s' w' /\
                  body s' w' = Done (inr a) w''.
Proof.
  induction fuel as [|fuel IH]; intros s w a w'' Hrun; [discriminate|].
  rewrite while_true_S in Hrun.
  destruct (body s w) as [[s1|a1] w1|e w1|w1] eqn:Hbody; try discriminate.
  - destruct (IH _ _ _ _ Hrun) as (n & s' & w' & Hn & Hit & Hlast).
    exists (Datatypes.S n), s', w'. split_and!; [lia| |done].
    econstructor; eauto.
  - injection Hrun as <- <-. exists 0%nat, s, w. split_and!; [lia| |done].
    constructor.
Qed.

(** More fuel never changes a result that was reached. *)
Lemma while_true_mono {S A} (body body' : S -> M (S + A)) :
  (forall s w, finished (body s w) -> body' s w = body s w) ->
  forall fuel fuel' s w, (fuel <= fuel')%nat ->
    finished (while_true fuel body s w) ->
    while_true fuel' body' s w = while_true fuel body s w.
Proof.
  intros Hbody. induction fuel as [|fuel IH]; intros fuel' s w Hle Hfin;
    [contradiction|].
  destruct fuel' as [|fuel']; [lia|].
  rewrite !while_true_S in *.
  assert (Hb : finished (body s w)).
  { destruct (body s w) as [[?|?] ?|? ?|?]; simpl in *; done. }
  rewrite (Hbody _ _ Hb).
  destruct (body s w) as [[s1|a1] w1|e w1|w1]; try reflexivity.
  apply IH; [lia|done].
Qed.

Lemma bind_mono {A B} (m m' : M A) (k k' : A -> M B) w :
  (finished (m w) -> m' w = m w) ->
  (forall a w1, finished (k a w1) -> k' a w1 = k a w1) ->
  finished (bind m k w) -> bind m' k' w = bind m k w.
Proof.
  intros Hm Hk Hfin. unfold bind in *.
  assert (Hb : finished (m w)) by (destruct (m w); simpl in *; done).
  rewrite (Hm Hb). destruct (m w); try reflexivity. by apply Hk.
Qed.

Lemma try_except_mono {A} (m m' : M A) (h : exn -> option (M A)) w :
  (finished (m w) -> m' w = m w) ->
  finished (try_except m h w) -> try_except m' h w = try_except m h w.
Proof.
  intros Hm Hfin. unfold try_except in *.
  assert (Hb : finished (m w)) by (destruct (m w); simpl in *; done).
  by rewrite (Hm Hb).
Qed.

Lemma for_each_mono {X S} (body body' : X -> S -> M S) xs :
  (forall x s w, finished (body x s w) -> body' x s w = body x s w) ->
  forall s w, finished (for_each xs body s w) ->
    for_each xs body' s w = for_each xs body s w.
Proof.
  intros Hbody. induction xs as [|x xs IH]; intros s w Hfin; [done|].
  simpl in *. apply bind_mono; auto.
Qed.

(** ** Frames: what a computation leaves alone *)

Section Frames.
Variable R : World -> World -> Prop.
Hypothesis R_refl : forall w, R w w.
Hypothesis R_trans : forall w1 w2 w3, R w1 w2 -> R w2 w3 -> R w1 w3.

Lemma keeps_ret {A} (a : A) : keeps R (ret a).
Proof. intros w. apply R_refl. Qed.

Lemma keeps_raise {A} e : keeps R (@raise A e).
Proof. intros w. apply R_refl. Qed.

Lemma keeps_bind {A B} (m : M A) (k : A -> M B) :
  keeps R m -> (forall a, keeps R (k a)) -> keeps R (bind m k).
Proof.
  intros Hm Hk w. unfold bind. specialize (Hm w).
  destruct (m w) as [a w'|e w'|w']; simpl in *; [|done..].
  eapply R_trans; [exact Hm|apply Hk].
Qed.

Lemma keeps_try_except {A} (m : M A) (h : exn -> option (M A)) :
  keeps R m -> (forall e k, h e = Some k -> keeps R k) ->
  keeps R (try_except m h).
Proof.
  intros Hm Hh w. unfold try_except. specialize (Hm w).
  destruct (m w) as [a w'|e w'|w']; simpl in *; [done| |done].
  destruct (h e) as [k|] eqn:He; [|done].
  eapply R_trans; [exact Hm|]. by apply (Hh e).
Qed.

Lemma keeps_while_true {S A} (body : S -> M (S + A)) fuel :
  (forall s, keeps R (body s)) -> forall s, keeps R (while_true fuel body s).
Proof.
  intros Hbody. induction fuel as [|fuel IH]; intros s w.
  - apply R_refl.
  - rewrite while_true_S. specialize (Hbody s w).
    destruct (body s w) as [[s1|a] w1|e w1|w1]; simpl in *; [|done..].
    eapply R_trans; [exact Hbody|apply IH].
Qed.

Lemma keeps_for_each {X S} (body : X -> S -> M S) xs :
  (forall x s, keeps R (body x s)) -> forall s, keeps R (for_each xs body s).
Proof.
  intros Hbody. induction xs as [|x xs IH]; intros s.
  - apply keeps_ret.
  - simpl. apply keeps_bind; auto.
Qed.

End Frames.

Lemma keeps_weaken {A} (R R' : World -> World -> Prop) (m : M A) :
  (forall w w', R w w' -> R' w w') -> keeps R m -> keeps R' m.
Proof. intros HR Hm w. apply HR, Hm. Qed.

Lemma extends_refl P w : extends P w w.
Proof. exists []. by rewrite app_nil_r. Qed.

Lemma extends_trans P w1 w2 w3 :
  extends P w1 w2 -> extends P w2 w3 -> extends P w1 w3.
Proof.
  intros (evs1 & Ht1 & HP1 & Hf1 & Hn1 & Hd1) (evs2 & Ht2 & HP2 & Hf2 & Hn2 & Hd2).
  exists (evs1 ++ evs2)%list. split_and!.
  - by rewrite Ht2, Ht1, app_assoc.
  - by apply Forall_app.
  - congruence.
  - congruence.
  - congruence.
Qed.

Lemma extends_mono (P P' : event -> Prop) w w' :
  (forall e, P e -> P' e) -> extends P w w' -> extends P' w w'.
Proof.
  intros HP (evs & Ht & Hall & Hf & Hn & Hd). exists evs. split_and!; try done.
  eapply Forall_impl; eauto.
Qed.

Lemma prepares_refl P w : prepares P w w.
Proof. exists []. by rewrite app_nil_r. Qed.

Lemma prepares_trans P w1 w2 w3 :
  prepares P w1 w2 -> prepares P w2 w3 -> prepares P w1 w3.
Proof.
  intros (evs1 & Ht1 & HP1 & Hf1 & Hn1 & Hd1) (evs2 & Ht2 & HP2 & Hf2 & Hn2 & Hd2).
  exists (evs1 ++ evs2)%list. split_and!.
  - by rewrite Ht2, Ht1, app_assoc.
  - by apply Forall_app.
  - congruence.
  - congruence.
  - by etrans.
Qed.

Lemma extends_prepares (P P' : event -> Prop) w w' :
  (forall e, P e -> P' e) -> extends P w w' -> prepares P' w w'.
Proof.
  intros HP (evs & Ht & Hall & Hf & Hn & Hd). exists evs.
  split_and!; [done| |done|done|by rewrite Hd].
  eapply Forall_impl; eauto.
Qed.

Lemma keeps_emit (P : event -> Prop) e : P e -> keeps (extends P) (emit e).
Proof. intros He w. exists [e]. simpl. split_and!; auto. Qed.

(** Exceptions that can escape. *)

Lemma raises_only_ret {A} Q (a : A) : raises_only Q (ret a).
Proof. intros w e w' H. discriminate. Qed.

Lemma raises_only_raise {A} (Q : exn -> Prop) e : Q e -> raises_only Q (@raise A e).
Proof. intros He w e' w' H. injection H as <- <-. done. Qed.

Lemma raises_only_bind {A B} Q (m : M A) (k : A -> M B) :
  raises_only Q m -> (forall a, raises_only Q (k a)) -> raises_only Q (bind m k).
Proof.
  intros Hm Hk w e w' H. unfold bind in H.
  destruct (m w) as [a w1|e1 w1|w1] eqn:Hmw; [|injection H as <- <-|discriminate].
  - eapply Hk; eauto.
  - eapply Hm; eauto.
Qed.

Lemma raises_only_try_except {A} (Q Q' : exn -> Prop) (m : M A) h :
  raises_only Q' m ->
  (forall e, Q' e -> match h e with Some k => raises_only Q k | None => Q e end) ->
  raises_only Q (try_except m h).
Proof.
  intros Hm Hh w e w' H. unfold try_except in H.
  destruct (m w) as [a w1|e1 w1|w1] eqn:Hmw; try discriminate.
  specialize (Hh e1 (Hm _ _ _ Hmw)).
  destruct (h e1) as [k|]; [eapply Hh; eauto|].
  by injection H as <- <-.
Qed.

Lemma raises_only_while_true {S A} Q (body : S -> M (S + A)) fuel :
  (forall s, raises_only Q (body s)) ->
  forall s, raises_only Q (while_true fuel body s).
Proof.
  intros Hbody. induction fuel as [|fuel IH]; intros s w e w' H; [discriminate|].
  rewrite while_true_S in H.
  destruct (body s w) as [[s1|a] w1|e1 w1|w1] eqn:Hb; try discriminate.
  - eapply IH; eauto.
  - injection H as <- <-. eapply Hbody; eauto.
Qed.

Lemma raises_only_for_each {X S} Q (body : X -> S -> M S) xs :
  (forall x s, raises_only Q (body x s)) ->
  forall s, raises_only Q (for_each xs body s).
Proof.
  intros Hbody. induction xs as [|x xs IH]; intros s.
  - apply raises_only_ret.
  - simpl. apply raises_only_bind; auto.
Qed.

Lemma raises_only_emit Q e : raises_only Q (emit e).
Proof. intros w e' w' H. discriminate. Qed.

(** Frame and exception rules, specialised to [extends P]. *)
Ltac frame_step :=
  first
    [ apply keeps_ret; apply extends_refl
    | apply keeps_raise; apply extends_refl
    | apply keeps_emit; exact I
    | apply keeps_bind; [apply extends_trans | | intros ?]
    | apply keeps_try_except; [apply extends_trans | | ]
    | apply keeps_while_true; [apply extends_refl | apply extends_trans | intros ?]
    | apply keeps_for_each; [apply extends_refl | apply extends_trans | intros ? ?] ].

Ltac raises_step :=
  first
    [ apply raises_only_ret
    | apply raises_only_emit
    | apply raises_only_raise
    | apply raises_only_bind; [ | intros ?]
    | apply raises_only_while_true; intros ?
    | apply raises_only_for_each; intros ? ? ].

(** ** The scrapers: frames, escaping exceptions, fuel *)

Section Scrapers.
Variable E : Env.

Lemma session_get_keeps u : keeps (extends scrape_event) (session_get E u).
Proof.
  intros w. unfold session_get.
  destruct (net E (clock w) u); simpl;
    (exists [EvGet u TIMEOUT]; split_and!; [done| |done..]);
    by repeat constructor.
Qed.

Lemma blocking_get_keeps fuel u allow :
  keeps (extends scrape_event) (blocking_get E fuel u allow).
Proof.
  unfold blocking_get. frame_step. frame_step.
  - unfold blocking_get_attempt. frame_step.
    + unfold print. repeat frame_step. { apply session_get_keeps. }
      destruct (_ && _); repeat frame_step.
      unfold raise_for_status. destruct (_ && _); frame_step.
    + intros e k. destruct e; intros [= <-]; unfold print, sleep;
        try destruct (_ && _); repeat frame_step.
  - destruct a; frame_step.
Qed.

Lemma blocking_get_raises fuel u allow :
  raises_only interrupt (blocking_get E fuel u allow).
Proof.
  unfold blocking_get. raises_step. raises_step; [|destruct a; raises_step].
  unfold blocking_get_attempt.
  apply raises_only_try_except with
    (Q' := fun e => match e with
                    | HTTPError _ | RequestException _ | KeyboardInterrupt => True
                    | _ => False
                    end).
  - unfold print. raises_step; [raises_step|]. raises_step.
    + intros w e w' H. unfold session_get in H.
      destruct (net E (clock w) u); by inversion H.
    + destruct (_ && _); [raises_step|].
      raises_step; [|unfold sleep; repeat raises_step].
      unfold raise_for_status. destruct (_ && _); raises_step. done.
  - intros [] HQ; try done; unfold print, sleep;
      try destruct (_ && _); repeat raises_step.
Qed.

Lemma blocking_get_mono u allow fuel fuel' w :
  (fuel <= fuel')%nat ->
  finished (blocking_get E fuel u allow w) ->
  blocking_get E fuel' u allow w = blocking_get E fuel u allow w.
Proof. intros Hle Hfin. unfold blocking_get in *. by apply while_true_mono. Qed.

(** *** Series index *)

Lemma get_series_from_page_keeps fuel page :
  keeps (extends scrape_event) (get_series_from_page E fuel page).
Proof.
  unfold get_series_from_page. frame_step; [apply blocking_get_keeps|].
  destruct (_ =? _); frame_step.
Qed.

Lemma get_series_from_page_raises fuel page :
  raises_only interrupt (get_series_from_page E fuel page).
Proof.
  unfold get_series_from_page. raises_step; [apply blocking_get_raises|].
  destruct (_ =? _); raises_step.
Qed.

Lemma get_series_from_page_mono page fuel fuel' w :
  (fuel <= fuel')%nat ->
  finished (get_series_from_page E fuel page w) ->
  get_series_from_page E fuel' page w = get_series_from_page E fuel page w.
Proof.
  intros Hle Hfin. unfold get_series_from_page in *.
  apply bind_mono; auto. intros. by apply blocking_get_mono.
Qed.

Lemma scrape_series_step_keeps fuel st :
  keeps (extends scrape_event) (scrape_series_step E fuel st).
Proof.
  destruct st as [[all_series seen] page]. unfold scrape_series_step.
  frame_step; [apply get_series_from_page_keeps|].
  destruct a; [destruct (merge_batch _ _)|]; frame_step.
Qed.

Lemma scrape_series_step_raises fuel st :
  raises_only interrupt (scrape_series_step E fuel st).
Proof.
  destruct st as [[all_series seen] page]. unfold scrape_series_step.
  raises_step; [apply get_series_from_page_raises|].
  destruct a; [destruct (merge_batch _ _)|]; raises_step.
Qed.

Lemma scrape_series_step_mono st fuel fuel' w :
  (fuel <= fuel')%nat ->
  finished (scrape_series_step E fuel st w) ->
  scrape_series_step E fuel' st w = scrape_series_step E fuel st w.
Proof.
  intros Hle Hfin. destruct st as [[all_series seen] page].
  unfold scrape_series_step in *.
  apply bind_mono; auto. intros. by apply get_series_from_page_mono.
Qed.

Lemma scrape_all_series_keeps fuel :
  keeps (extends scrape_event) (scrape_all_series E fuel).
Proof.
  unfold scrape_all_series, print. frame_step; [frame_step|].
  frame_step; [|repeat frame_step].
  frame_step. apply scrape_series_step_keeps.
Qed.

Lemma scrape_all_series_raises fuel :
  raises_only interrupt (scrape_all_series E fuel).
Proof.
  unfold scrape_all_series, print. raises_step; [raises_step|].
  raises_step; [|repeat raises_step].
  raises_step. apply scrape_series_step_raises.
Qed.

Lemma scrape_all_series_mono fuel fuel' w :
  (fuel <= fuel')%nat ->
  finished (scrape_all_series E fuel w) ->
  scrape_all_series E fuel' w = scrape_all_series E fuel w.
Proof.
  intros Hle Hfin. unfold scrape_all_series in *.
  apply bind_mono; auto. intros _ w1 Hfin1.
  apply bind_mono; auto. intros Hfin2.
  apply while_true_mono; auto.
  intros. by apply scrape_series_step_mono.
Qed.

(** *** Season pages *)

Lemma get_episode_links_keeps fuel show_url season :
  keeps (extends scrape_event) (get_episode_links E fuel show_url season).
Proof.
  unfold get_episode_links. frame_step; [apply blocking_get_keeps|]. frame_step.
Qed.

Lemma get_episode_links_raises fuel show_url season :
  raises_only interrupt (get_episode_links E fuel show_url season).
Proof.
  unfold get_episode_links. raises_step; [apply blocking_get_raises|]. raises_step.
Qed.

Lemma get_episode_links_mono show_url season fuel fuel' w :
  (fuel <= fuel')%nat ->
  finished (get_episode_links E fuel show_url season w) ->
  get_episode_links E fuel' show_url season w
  = get_episode_links E fuel show_url season w.
Proof.
  intros Hle Hfin. unfold get_episode_links in *.
  apply bind_mono; auto. intros. by apply blocking_get_mono.
Qed.

Lemma scrape_show_step_keeps fuel show_url st :
  keeps (extends scrape_event) (scrape_show_step E fuel show_url st).
Proof.
  destruct st as [season all_episodes]. unfold scrape_show_step.
  frame_step; [apply get_episode_links_keeps|]. destruct a; frame_step.
Qed.

Lemma scrape_show_step_raises fuel show_url st :
  raises_only interrupt (scrape_show_step E fuel show_url st).
Proof.
  destruct st as [season all_episodes]. unfold scrape_show_step.
  raises_step; [apply get_episode_links_raises|]. destruct a; raises_step.
Qed.

Lemma scrape_show_step_mono show_url st fuel fuel' w :
  (fuel <= fuel')%nat ->
  finished (scrape_show_step E fuel show_url st w) ->
  scrape_show_step E fuel' show_url st w = scrape_show_step E fuel show_url st w.
Proof.
  intros Hle Hfin. destruct st as [season all_episodes].
  unfold scrape_show_step in *.
  apply bind_mono; auto. intros. by apply get_episode_links_mono.
Qed.

Lemma scrape_show_episodes_keeps fuel show :
  keeps (extends scrape_event) (scrape_show_episodes E fuel show).
Proof.
  unfold scrape_show_episodes, print. frame_step; [frame_step|].
  frame_step. apply scrape_show_step_keeps.
Qed.

Lemma scrape_show_episodes_raises fuel show :
  raises_only interrupt (scrape_show_episodes E fuel show).
Proof.
  unfold scrape_show_episodes, print. raises_step; [raises_step|].
  raises_step. apply scrape_show_step_raises.
Qed.

Lemma scrape_show_episodes_mono show fuel fuel' w :
  (fuel <= fuel')%nat ->
  finished (scrape_show_episodes E fuel show w) ->
  scrape_show_episodes E fuel' show w = scrape_show_episodes E fuel show w.
Proof.
  intros Hle Hfin. unfold scrape_show_episodes in *.
  apply bind_mono; auto. intros _ w1 Hfin1.
  apply while_true_mono; auto.
  intros. by apply scrape_show_step_mono.
Qed.

End Scrapers.

(** ** Merging the series of the index pages *)

Lemma series_inv_empty : series_inv ([], ∅).
Proof. split; [constructor|]. intros u. simpl. set_solver. Qed.

Lemma merge_series_inv st s : series_inv st -> series_inv (merge_series st s).
Proof.
  destruct st as [acc seen]. intros [Hnd Hseen]. simpl in *.
  unfold merge_series. case_bool_decide as Hin; [by split|].
  split; simpl.
  - rewrite fmap_app. apply NoDup_app. split_and!; [done| |apply NoDup_singleton].
    intros u Hu Hs. apply list_elem_of_singleton in Hs as ->.
    apply Hin, Hseen, Hu.
  - intros u. rewrite fmap_app, elem_of_app, elem_of_union, elem_of_singleton.
    simpl. rewrite list_elem_of_singleton, Hseen. tauto.
Qed.

Lemma merge_batch_inv st batch : series_inv st -> series_inv (merge_batch st batch).
Proof.
  unfold merge_batch. revert st.
  induction batch as [|s batch IH]; intros st Hst; [done|].
  simpl. apply IH. by apply merge_series_inv.
Qed.

Lemma collected_inv batches : series_inv (foldl merge_batch ([], ∅) batches).
Proof.
  assert (H : forall st, series_inv st -> series_inv (foldl merge_batch st batches)).
  { induction batches as [|b batches IH]; intros st Hst; [done|].
    simpl. apply IH. by apply merge_batch_inv. }
  apply H, series_inv_empty.
Qed.

Lemma foldl_merge_batch_concat st batches :
  foldl merge_batch st batches = merge_batch st (concat batches).
Proof.
  unfold merge_batch. revert st.
  induction batches as [|b batches IH]; intros st; [done|].
  simpl. by rewrite IH, foldl_app.
Qed.

Lemma find_app_l {A} (f : A -> bool) l1 l2 :
  List.find f (l1 ++ l2) =
  match List.find f l1 with Some x => Some x | None => List.find f l2 end.
Proof.
  induction l1 as [|x l1 IH]; [done|]. simpl. by destruct (f x).
Qed.

Lemma find_has_url_Some u l :
  u ∈ url <$> l -> exists s, List.find (has_url u) l = Some s /\ url s = u.
Proof.
  induction l as [|t l IH]; simpl.
  - intros H. by apply not_elem_of_nil in H.
  - intros [Heq|Hin]%elem_of_cons; unfold has_url at 1; case_bool_decide; eauto.
    congruence.
Qed.

Lemma find_has_url_elem u l s :
  List.find (has_url u) l = Some s -> s ∈ l /\ url s = u.
Proof.
  induction l as [|t l IH]; simpl; [done|].
  unfold has_url at 1. case_bool_decide as Ht.
  - intros [= <-]. split; [left|done].
  - intros H. destruct (IH H). split; [by right|done].
Qed.

Lemma merge_series_first_seen acc seen pre s :
  series_inv (acc, seen) -> first_seen acc pre ->
  first_seen (merge_series (acc, seen) s).1 (pre ++ [s]).
Proof.
  intros [_ Hseen] [Hsub Hfind]. simpl in Hseen. unfold merge_series.
  case_bool_decide as Hin; simpl.
  - split; [by apply sublist_inserts_r|].
    intros u. rewrite find_app_l, <- Hfind.
    destruct (List.find (has_url u) acc) eqn:Hf; [done|]. simpl.
    unfold has_url. case_bool_decide as Hu; [|done]. subst u.
    apply Hseen, find_has_url_Some in Hin as (t & Ht & _). congruence.
  - split; [by apply sublist_app|].
    intros u. by rewrite !find_app_l, Hfind.
Qed.

Lemma merge_batch_first_seen batch : forall acc seen pre,
  series_inv (acc, seen) -> first_seen acc pre ->
  first_seen (merge_batch (acc, seen) batch).1 (pre ++ batch).
Proof.
  unfold merge_batch.
  induction batch as [|s batch IH]; intros acc seen pre Hinv Hfs.
  - by rewrite app_nil_r.
  - cbn [foldl]. replace (pre ++ s :: batch)%list with ((pre ++ [s]) ++ batch)%list
      by by rewrite <- app_assoc.
    pose proof (merge_series_inv _ s Hinv) as Hinv'.
    pose proof (merge_series_first_seen _ _ _ s Hinv Hfs) as Hfs'.
    destruct (merge_series (acc, seen) s) as [acc' seen']. by apply IH.
Qed.

Lemma collected_first_seen batches : first_seen (collected batches) (concat batches).
Proof.
  unfold collected. rewrite foldl_merge_batch_concat.
  apply (merge_batch_first_seen (concat batches) [] ∅ []).
  - apply series_inv_empty.
  - by split.
Qed.

Lemma collected_NoDup batches : NoDup (url <$> collected batches).
Proof. apply collected_inv. Qed.


(** ** Walking the series index *)

Section SeriesIndex.
Variable E : Env.

Lemma get_series_from_page_eq fuel page w :
  get_series_from_page E fuel page w =
  match blocking_get E fuel (series_page_url page) true w with
  | Done r w' =>
      if status_code r =? 400 then Done None w'
      else Done (Some (omap series_of_item (series_items E (text r)))) w'
  | Raised e w' => Raised e w'
  | OutOfFuel w' => OutOfFuel w'
  end.
Proof.
  unfold get_series_from_page, bind.
  destruct (blocking_get _ _ _ _ _) as [r w'| |]; try reflexivity.
  by destruct (_ =? _).
Qed.

Lemma scrape_series_step_eq fuel st0 page w :
  scrape_series_step E fuel (st0, page) w =
  match get_series_from_page E fuel page w with
  | Done None w' => Done (inr st0.1) w'
  | Done (Some batch) w' => Done (inl (merge_batch st0 batch, Datatypes.S page)) w'
  | Raised e w' => Raised e w'
  | OutOfFuel w' => OutOfFuel w'
  end.
Proof.
  destruct st0 as [acc seen]. unfold scrape_series_step, bind.
  destruct (get_series_from_page _ _ _ _) as [[batch|] w'| |]; try reflexivity.
  by destruct (merge_batch _ _).
Qed.

Lemma pages_listed_iterates fuel p w batches w' :
  pages_listed E fuel p w batches w' ->
  forall st0,
    iterates (scrape_series_step E fuel) (length batches) (st0, p) w
      (foldl merge_batch st0 batches, (p + length batches)%nat) w'.
Proof.
  induction 1 as [p w|p w batch w1 rest w2 Hget _ IH]; intros st0; simpl.
  - rewrite Nat.add_0_r. constructor.
  - econstructor.
    + rewrite scrape_series_step_eq, Hget. reflexivity.
    + replace (p + S (length rest))%nat with (S p + length rest)%nat by lia.
      apply IH.
Qed.

Lemma iterates_pages_listed fuel n : forall st0 p w st' w',
  iterates (scrape_series_step E fuel) n (st0, p) w st' w' ->
  exists batches,
    length batches = n /\ pages_listed E fuel p w batches w' /\
    st' = (foldl merge_batch st0 batches, (p + n)%nat).
Proof.
  induction n as [|n IH]; intros st0 p w st' w' Hit; inversion Hit; subst.
  - exists []. rewrite Nat.add_0_r. split_and!; [done|constructor|done].
  - match goal with H : scrape_series_step _ _ _ _ = _ |- _ =>
      rewrite scrape_series_step_eq in H; rename H into Hstep end.
    destruct (get_series_from_page E fuel p w) as [[batch|] w0| |] eqn:Hget;
      try discriminate.
    injection Hstep as <- <-.
    match goal with H : iterates _ _ _ _ _ _ |- _ =>
      apply IH in H as (batches & Hlen & Hpages & ->) end.
    exists (batch :: batches). simpl. split_and!; [by f_equal| |f_equal; lia].
    econstructor; eauto.
Qed.

(** More fuel walks the same pages. *)
Lemma pages_listed_mono fuel fuel' p w batches w' :
  (fuel <= fuel')%nat ->
  pages_listed E fuel p w batches w' -> pages_listed E fuel' p w batches w'.
Proof.
  intros Hle. induction 1 as [|p w batch w1 rest w2 Hget _ IH]; [constructor|].
  econstructor; [|exact IH].
  rewrite <- Hget. apply get_series_from_page_mono; [done|]. by rewrite Hget.
Qed.

(** The walk ends on the boundary status, and on nothing else. *)
Lemma scrape_all_series_boundary fuel w batches w1 w2 :
  pages_listed E fuel 1 (log (EvPrint "--- Finding all Series ---") w) batches w1 ->
  get_series_from_page E fuel (Datatypes.S (length batches)) w1 = Done None w2 ->
  (length batches < fuel)%nat ->
  scrape_all_series E fuel w =
  Done (collected batches)
       (log (EvPrint ("Total Series Found: "
                      ++ pretty (length (collected batches)) ++ NL)) w2).
Proof.
  intros Hpages Hlast Hfuel. unfold scrape_all_series, print.
  rewrite (bind_Done _ _ w tt (log (EvPrint "--- Finding all Series ---") w))
    by reflexivity.
  erewrite bind_Done; [reflexivity|].
  eapply while_true_iterates; [by apply pages_listed_iterates| |done].
  rewrite scrape_series_step_eq. simpl. by rewrite Hlast.
Qed.

Lemma scrape_all_series_Done_inv fuel w l w' :
  scrape_all_series E fuel w = Done l w' ->
  exists batches w1 w2,
    (length batches < fuel)%nat /\
    pages_listed E fuel 1 (log (EvPrint "--- Finding all Series ---") w) batches w1 /\
    get_series_from_page E fuel (Datatypes.S (length batches)) w1 = Done None w2 /\
    l = collected batches /\
    w' = log (EvPrint ("Total Series Found: " ++ pretty (length l) ++ NL)) w2.
Proof.
  unfold scrape_all_series, print. intros Hrun.
  rewrite (bind_Done _ _ w tt (log (EvPrint "--- Finding all Series ---") w))
    in Hrun by reflexivity.
  unfold bind in Hrun.
  destruct (while_true _ _ _ _) as [l0 w2| |] eqn:Hloop; try discriminate.
  injection Hrun as <- <-.
  apply while_true_Done_inv in Hloop as (n & [st' p'] & w1 & Hn & Hit & Hlast).
  apply iterates_pages_listed in Hit as (batches & <- & Hpages & [= -> ->]).
  rewrite scrape_series_step_eq in Hlast.
  destruct (get_series_from_page _ _ _ _) as [[batch|] w3| |] eqn:Hget;
    try discriminate.
  injection Hlast as <- Hw. subst w3.
  exists batches, w1, w2. split_and!; done.
Qed.

End SeriesIndex.

(** ** The fetch loop never gives up *)

(** Claim C1.  [blocking_get] retries on every transient failure (an
    error status, or an exception of the [RequestException] family such
    as a connection error or a timeout) and there is no bound on the
    number of attempts.  (1) As long as the attempts fail, the call is
    still running, having slept the fixed doubled delay after each
    failure: after [n] failures, with any [n], it has not returned.  In
    particular on an endpoint where every attempt fails it never
    returns.  (2) When the attempt number [n] is the first to succeed,
    the call returns that response, for any [n].  (3) A call that
    returns has received a response that is not an error status, or the
    boundary status 400 with the flag set, after failures only. *)
Theorem blocking_get_retries_indefinitely (E : Env) (u : string)
    (allow_400_stop : bool) (w : World) :
  (forall n,
     (forall k, (k < n)%nat ->
        transient_failure allow_400_stop (net E (clock w + k) u) = true) ->
     blocking_get E n u allow_400_stop w = OutOfFuel (retried E u w n))
  /\ (forall n r fuel,
        (forall k, (k < n)%nat ->
           transient_failure allow_400_stop (net E (clock w + k) u) = true) ->
        net E (clock w + n) u = NetResponse r ->
        fetch_done allow_400_stop r = true ->
        (n < fuel)%nat ->
        blocking_get E fuel u allow_400_stop w =
        Done r (fetched u allow_400_stop r (retried E u w n)))
  /\ (forall fuel r w',
        blocking_get E fuel u allow_400_stop w = Done r w' ->
        exists n, (n < fuel)%nat /\
          (forall k, (k < n)%nat ->
             transient_failure allow_400_stop (net E (clock w + k) u) = true) /\
          net E (clock w + n) u = NetResponse r /\
          fetch_done allow_400_stop r = true /\
          w' = fetched u allow_400_stop r (retried E u w n)).
Proof.
  split_and!.
  - intros n Hfail. by apply blocking_get_failing.
  - intros n r fuel Hfail Hnet Hok Hfuel. by apply blocking_get_succeeds.
  - intros fuel r w' Hrun. by apply blocking_get_Done_inv in Hrun.
Qed.

Lemma blocking_get_retries_indefinitely_witness :
  blocking_get site_down 7 SERIES_INDEX true ready
  = OutOfFuel (retried site_down SERIES_INDEX ready 7)
  /\ blocking_get catalog 5 (show_a ++ "/season:1") false
       (mkWorld 2 [] ∅ 0 ∅)
     = Done (Response 200 "season-a-1")
         (fetched (show_a ++ "/season:1") false (Response 200 "season-a-1")
            (retried catalog (show_a ++ "/season:1") (mkWorld 2 [] ∅ 0 ∅) 1)).
Proof.
  split.
  - apply (proj1 (blocking_get_retries_indefinitely
                    site_down SERIES_INDEX true ready) 7%nat).
    intros k Hk. reflexivity.
  - apply (proj1 (proj2 (blocking_get_retries_indefinitely
                    catalog (show_a ++ "/season:1") false (mkWorld 2 [] ∅ 0 ∅)))
             1%nat (Response 200 "season-a-1") 5%nat).
    + intros k Hk. assert (k = 0%nat) as -> by lia. reflexivity.
    + reflexivity.
    + reflexivity.
    + lia.
Defined.

(** ** The series index *)

(** Claim C2.  When the index pages 1, 2, ..., k have been listed and
    the fetch of page k+1 returns the boundary status 400, the walker
    returns normally, with exactly the series merged from the pages 1
    to k, and the last request it has sent is the one that was answered
    400: it only prints the total afterwards.  This holds for every
    fuel that was enough to reach the boundary. *)
Theorem scrape_all_series_stops_at_boundary (E : Env) (fuel : nat) (w : World)
    (batches : list (list series)) (w1 : World) (r : response) (w2 : World) :
  pages_listed E fuel 1 (log (EvPrint "--- Finding all Series ---") w) batches w1 ->
  blocking_get E fuel (series_page_url (Datatypes.S (length batches))) true w1
    = Done r w2 ->
  status_code r = 400 ->
  (length batches < fuel)%nat ->
  forall fuel', (fuel <= fuel')%nat ->
    exists w',
      scrape_all_series E fuel' w = Done (collected batches) w' /\
      w' = log (EvPrint ("Total Series Found: "
                         ++ pretty (length (collected batches)) ++ NL)) w2 /\
      clock w' = clock w2 /\
      gets (trace w') = gets (trace w2).
Proof.
  intros Hpages Hget Hstatus Hfuel fuel' Hle.
  assert (Hlast : get_series_from_page E fuel (Datatypes.S (length batches)) w1
                  = Done None w2).
  { rewrite get_series_from_page_eq, Hget, Hstatus. reflexivity. }
  pose proof (scrape_all_series_boundary E fuel w batches w1 w2
                Hpages Hlast Hfuel) as Hrun.
  eexists. split_and!; [|reflexivity|reflexivity|].
  - rewrite <- Hrun. apply scrape_all_series_mono; [done|]. by rewrite Hrun.
  - unfold gets, log. simpl. rewrite omap_app. simpl. by rewrite app_nil_r.
Qed.

Lemma scrape_all_series_stops_at_boundary_witness :
  exists w',
    scrape_all_series catalog 9 ready
    = Done [Series "Game Changer" show_a; Series "Unknown" show_b] w'
    /\ gets (trace w') = [ SERIES_INDEX; SERIES_INDEX ++ "?page=2";
                           SERIES_INDEX ++ "?page=3"; SERIES_INDEX ++ "?page=3" ].
Proof.
  destruct (scrape_all_series_stops_at_boundary catalog 4 ready
              [ [Series "Game Changer" show_a; Series "Unknown" show_b];
                [Series "Game Changer (again)" show_a] ]
              (world_of (get_series_from_page catalog 4 2
                 (world_of (get_series_from_page catalog 4 1
                    (log (EvPrint "--- Finding all Series ---") ready)))))
              (Response 400 "")
              (world_of (get_series_from_page catalog 4 3
                 (world_of (get_series_from_page catalog 4 2
                    (world_of (get_series_from_page catalog 4 1
                       (log (EvPrint "--- Finding all Series ---") ready)))))))
              ltac:(repeat (eapply pages_cons; [vm_compute; reflexivity|]);
                    apply pages_nil)
              ltac:(vm_compute; reflexivity)
              ltac:(reflexivity)
              ltac:(simpl; lia)
              9%nat ltac:(lia))
    as (w' & Hrun & Hw' & _ & Hgets).
  exists w'. split; [exact Hrun|].
  rewrite Hgets. vm_compute. reflexivity.
Defined.

Lemma filter_has_url_none u (l : list series) :
  u ∉ url <$> l -> filter (fun t => url t = u) l = [].
Proof.
  induction l as [|t l IH]; intros Hnot; [done|].
  rewrite fmap_cons, not_elem_of_cons in Hnot. destruct Hnot as [Hne Hnot].
  rewrite filter_cons_False by congruence. by apply IH.
Qed.

Lemma NoDup_url_once u (l : list series) :
  NoDup (url <$> l) -> u ∈ url <$> l ->
  length (filter (fun t => url t = u) l) = 1%nat.
Proof.
  induction l as [|t l IH]; intros Hnd Hin.
  - by apply not_elem_of_nil in Hin.
  - rewrite fmap_cons in Hnd, Hin. apply NoDup_cons in Hnd as [Hnot Hnd].
    destruct (decide (url t = u)) as [Heq|Hne].
    + rewrite filter_cons_True by done. simpl.
      rewrite filter_has_url_none; [done|]. by rewrite <- Heq.
    + rewrite filter_cons_False by done. apply IH; [done|].
      apply elem_of_cons in Hin as [Heq|Hin]; [congruence|done].
Qed.

Lemma first_seen_covers acc seen (s : series) :
  first_seen acc seen -> s ∈ seen -> url s ∈ url <$> acc.
Proof.
  intros [_ Hfind] Hin.
  destruct (find_has_url_Some (url s) seen) as (t & Ht & Hurl).
  { apply list_elem_of_fmap. eauto. }
  rewrite <- Hfind in Ht. apply find_has_url_elem in Ht as [Ht _].
  apply list_elem_of_fmap. eauto.
Qed.

Lemma catalog_index_walk :
  pages_listed catalog 4 1 (log (EvPrint "--- Finding all Series ---") ready)
    catalog_batches catalog_listed
  /\ get_series_from_page catalog 4 (Datatypes.S (length catalog_batches))
       catalog_listed = Done None catalog_boundary.
Proof.
  split.
  - unfold catalog_batches.
    repeat (eapply pages_cons; [vm_compute; reflexivity|]). apply pages_nil.
  - vm_compute. reflexivity.
Qed.

(** Claim C4.  No two entries of the merged series list share a URL:
    (1) the invariant "no URL twice, and [seen] is the set of the URLs
    of the list" holds at the start and is kept by every per-page merge
    step; (2) it holds of every list that [scrape_all_series] returns;
    (3) for every sequence of index pages, listed from page 1 up to the
    page that answers the boundary status: the walk returns a list in
    which every series entry found on these pages, once or several
    times, on one page or on several, has its URL exactly once, and
    which holds nothing but entries of these pages. *)
Theorem series_urls_unique (E : Env) :
  series_inv ([], ∅)
  /\ (forall st batch, series_inv st -> series_inv (merge_batch st batch))
  /\ (forall fuel w l w',
        scrape_all_series E fuel w = Done l w' -> NoDup (url <$> l))
  /\ (forall fuel w batches w1 w2,
        pages_listed E fuel 1
          (log (EvPrint "--- Finding all Series ---") w) batches w1 ->
        get_series_from_page E fuel (Datatypes.S (length batches)) w1
          = Done None w2 ->
        (length batches < fuel)%nat ->
        exists l w',
          scrape_all_series E fuel w = Done l w' /\
          NoDup (url <$> l) /\
          (forall s, s ∈ concat batches ->
             length (filter (fun t => url t = url s) l) = 1%nat) /\
          (forall t, t ∈ l -> t ∈ concat batches)).
Proof.
  split_and!.
  - apply series_inv_empty.
  - intros st batch. apply merge_batch_inv.
  - intros fuel w l w' Hrun.
    apply scrape_all_series_Done_inv in Hrun
      as (batches & w1 & w2 & _ & _ & _ & -> & _).
    apply collected_NoDup.
  - intros fuel w batches w1 w2 Hpages Hlast Hfuel.
    eexists _, _. split_and!.
    + by apply (scrape_all_series_boundary E fuel w batches w1 w2).
    + apply collected_NoDup.
    + intros s Hs. apply NoDup_url_once; [apply collected_NoDup|].
      eapply first_seen_covers; [apply collected_first_seen|done].
    + intros t Ht. eapply elem_of_sublist; [exact Ht|].
      apply collected_first_seen.
Qed.

Lemma series_urls_unique_witness :
  exists l w',
    scrape_all_series catalog 4 ready = Done l w' /\
    NoDup (url <$> l) /\
    length (filter (fun t => url t = show_a) l) = 1%nat.
Proof.
  destruct catalog_index_walk as [Hpages Hlast].
  destruct (proj2 (proj2 (proj2 (series_urls_unique catalog))) 4%nat ready
              catalog_batches catalog_listed catalog_boundary
              Hpages Hlast ltac:(simpl; lia))
    as (l & w' & Hrun & Hnd & Honce & _).
  exists l, w'. split; [exact Hrun|]. split; [exact Hnd|].
  apply (Honce (Series "Game Changer (again)" show_a)).
  unfold catalog_batches. simpl. right. right. left.
Defined.



(** ** Walking the seasons of a show *)

Section Seasons.
Variable E : Env.

Lemma gets_app evs1 evs2 : gets (evs1 ++ evs2) = (gets evs1 ++ gets evs2)%list.
Proof. apply omap_app. Qed.

Lemma gets_retry_events u c n : gets (retry_events E u c n) = replicate n u.
Proof.
  revert c. induction n as [|n IH]; intros c; [done|].
  simpl. f_equal. apply IH.
Qed.

(** A fetch that returns has sent requests to its own URL only. *)
Lemma blocking_get_gets fuel u allow w r w' :
  blocking_get E fuel u allow w = Done r w' ->
  exists k evs, trace w' = (trace w ++ evs)%list /\
                gets evs = replicate (Datatypes.S k) u.
Proof.
  intros Hrun.
  apply blocking_get_Done_inv in Hrun as (k & _ & _ & _ & _ & ->).
  exists k. eexists. split.
  - simpl. rewrite <- app_assoc. reflexivity.
  - rewrite gets_app, gets_retry_events.
    replace (S k) with (k + 1)%nat by lia. rewrite replicate_add. f_equal.
    destruct (_ && _); reflexivity.
Qed.

Lemma get_episode_links_eq fuel show_url season w :
  get_episode_links E fuel show_url season w =
  match blocking_get E fuel (season_url show_url season) false w with
  | Done r w' => Done (map (urljoin E show_url) (episode_hrefs E (text r))) w'
  | Raised e w' => Raised e w'
  | OutOfFuel w' => OutOfFuel w'
  end.
Proof.
  unfold get_episode_links, bind. by destruct (blocking_get _ _ _ _ _).
Qed.

Lemma scrape_show_step_eq fuel show_url season acc w :
  scrape_show_step E fuel show_url (season, acc) w =
  match get_episode_links E fuel show_url season w with
  | Done [] w' => Done (inr acc) w'
  | Done links w' => Done (inl (Datatypes.S season, (acc ++ links)%list)) w'
  | Raised e w' => Raised e w'
  | OutOfFuel w' => OutOfFuel w'
  end.
Proof.
  unfold scrape_show_step, bind.
  destruct (get_episode_links _ _ _ _ _) as [[|l links] w'| |]; reflexivity.
Qed.

Lemma seasons_listed_iterates fuel show_url n w pages w' :
  seasons_listed E fuel show_url n w pages w' ->
  forall acc,
    iterates (scrape_show_step E fuel show_url) (length pages) (n, acc) w
      ((n + length pages)%nat, (acc ++ concat pages)%list) w'.
Proof.
  induction 1 as [n w|n w links w1 rest w2 Hget Hne _ IH]; intros acc; simpl.
  - rewrite Nat.add_0_r, app_nil_r. constructor.
  - econstructor.
    + rewrite scrape_show_step_eq, Hget. by destruct links.
    + replace (n + S (length rest))%nat with (S n + length rest)%nat by lia.
      rewrite app_assoc. apply IH.
Qed.

Lemma iterates_seasons_listed fuel show_url k : forall n acc w st' w',
  iterates (scrape_show_step E fuel show_url) k (n, acc) w st' w' ->
  exists pages,
    length pages = k /\ seasons_listed E fuel show_url n w pages w' /\
    st' = ((n + k)%nat, (acc ++ concat pages)%list).
Proof.
  induction k as [|k IH]; intros n acc w st' w' Hit; inversion Hit; subst.
  - exists []. rewrite Nat.add_0_r, app_nil_r. split_and!; [done|constructor|done].
  - match goal with H : scrape_show_step _ _ _ _ _ = _ |- _ =>
      rewrite scrape_show_step_eq in H; rename H into Hstep end.
    destruct (get_episode_links E fuel show_url n w) as [links w0| |] eqn:Hget;
      try discriminate.
    destruct links as [|l links]; [discriminate|].
    injection Hstep as <- <-.
    match goal with H : iterates _ _ _ _ _ _ |- _ =>
      apply IH in H as (pages & Hlen & Hpages & ->) end.
    exists ((l :: links) :: pages). simpl. split_and!; [by f_equal| |].
    + econstructor; eauto.
    + f_equal; [lia|]. by rewrite <- app_assoc.
Qed.

Lemma seasons_listed_mono fuel fuel' show_url n w pages w' :
  (fuel <= fuel')%nat ->
  seasons_listed E fuel show_url n w pages w' ->
  seasons_listed E fuel' show_url n w pages w'.
Proof.
  intros Hle. induction 1 as [|n w links w1 rest w2 Hget Hne _ IH]; [constructor|].
  econstructor; [|done|exact IH].
  rewrite <- Hget. apply get_episode_links_mono; [done|]. by rewrite Hget.
Qed.

(** The requests of a season walk. *)
Lemma get_episode_links_gets fuel show_url n w links w' :
  get_episode_links E fuel show_url n w = Done links w' ->
  exists k evs, trace w' = (trace w ++ evs)%list /\
                gets evs = replicate (Datatypes.S k) (season_url show_url n).
Proof.
  rewrite get_episode_links_eq. intros Hrun.
  destruct (blocking_get _ _ _ _ _) as [r w0| |] eqn:Hget; try discriminate.
  injection Hrun as _ <-. by apply blocking_get_gets in Hget.
Qed.

Lemma seasons_listed_gets fuel show_url n w pages w' :
  seasons_listed E fuel show_url n w pages w' ->
  exists failures evs,
    length failures = length pages /\
    trace w' = (trace w ++ evs)%list /\
    gets evs = probes show_url n failures.
Proof.
  induction 1 as [n w|n w links w1 rest w2 Hget Hne _ IH].
  - exists [], []. by rewrite app_nil_r.
  - destruct IH as (failures & evs & Hlen & Htr & Hgets).
    apply get_episode_links_gets in Hget as (k & evs0 & Htr0 & Hgets0).
    exists (k :: failures), (evs0 ++ evs)%list. split_and!.
    + simpl. by f_equal.
    + by rewrite Htr, Htr0, app_assoc.
    + rewrite gets_app, Hgets0, Hgets. reflexivity.
Qed.

Lemma probes_app show_url n f1 f2 :
  probes show_url n (f1 ++ f2) =
  (probes show_url n f1 ++ probes show_url (n + length f1) f2)%list.
Proof.
  revert n. induction f1 as [|k f1 IH]; intros n.
  - simpl. by rewrite Nat.add_0_r.
  - cbn [probes app length]. rewrite IH, <- app_assoc.
    by replace (S n + length f1)%nat with (n + S (length f1))%nat by lia.
Qed.

Lemma elem_of_probes show_url x failures : forall n,
  x ∈ probes show_url n failures ->
  exists m, (n <= m < n + length failures)%nat /\ x = season_url show_url m.
Proof.
  induction failures as [|k rest IH]; intros n Hin.
  - by apply not_elem_of_nil in Hin.
  - cbn [probes] in Hin. apply elem_of_app in Hin as [Hin|Hin].
    + apply elem_of_replicate_inv in Hin. exists n. simpl. split; [lia|done].
    + apply IH in Hin as (m & Hm & ->). exists m. simpl. split; [lia|done].
Qed.

Lemma season_url_inj show_url m m' :
  season_url show_url m = season_url show_url m' -> m = m'.
Proof.
  unfold season_url. intros H.
  apply (inj (String.app show_url)) in H.
  apply (inj (String.app "/season:")) in H.
  by apply (inj pretty) in H.
Qed.

Lemma scrape_show_episodes_empty_season fuel show w pages w1 w2 :
  seasons_listed E fuel (url show) 1
    (log (EvPrint ("--- Scraping: " ++ title show ++ " ---")) w) pages w1 ->
  get_episode_links E fuel (url show) (Datatypes.S (length pages)) w1 = Done [] w2 ->
  (length pages < fuel)%nat ->
  scrape_show_episodes E fuel show w = Done (concat pages) w2.
Proof.
  intros Hpages Hlast Hfuel. unfold scrape_show_episodes, print.
  erewrite bind_Done by reflexivity.
  eapply while_true_iterates; [by apply seasons_listed_iterates| |done].
  rewrite scrape_show_step_eq. simpl. by rewrite Hlast.
Qed.

Lemma scrape_show_episodes_Done_inv fuel show w eps w2 :
  scrape_show_episodes E fuel show w = Done eps w2 ->
  exists pages w1,
    (length pages < fuel)%nat /\
    seasons_listed E fuel (url show) 1
      (log (EvPrint ("--- Scraping: " ++ title show ++ " ---")) w) pages w1 /\
    get_episode_links E fuel (url show) (Datatypes.S (length pages)) w1
      = Done [] w2 /\
    eps = concat pages.
Proof.
  unfold scrape_show_episodes, print. intros Hrun.
  erewrite bind_Done in Hrun by reflexivity.
  apply while_true_Done_inv in Hrun as (k & [n' acc'] & w1 & Hk & Hit & Hlast).
  apply iterates_seasons_listed in Hit as (pages & <- & Hpages & [= -> ->]).
  rewrite scrape_show_step_eq in Hlast.
  destruct (get_episode_links _ _ _ _ _) as [[|l links] w3| |] eqn:Hget;
    try discriminate.
  injection Hlast as <- Hw. subst w3.
  exists pages, w1. split_and!; done.
Qed.

End Seasons.

(** Claim C3.  When the season pages 1, 2, ..., k of a show have each
    yielded at least one link and the page of season k+1 yields none,
    [scrape_show_episodes] returns the links of the seasons 1 to k, in
    that order, for any fuel that was enough to get there.  The
    requests it has sent are those of the seasons 1, 2, ..., k+1 in
    this order (each repeated as often as it failed), so no season page
    with a number above k+1 was requested. *)
Theorem scrape_show_episodes_stops_at_empty_season (E : Env) (fuel : nat)
    (show : series) (w : World) (pages : list (list string)) (w1 w2 : World) :
  seasons_listed E fuel (url show) 1
    (log (EvPrint ("--- Scraping: " ++ title show ++ " ---")) w) pages w1 ->
  get_episode_links E fuel (url show) (Datatypes.S (length pages)) w1 = Done [] w2 ->
  (length pages < fuel)%nat ->
  (forall fuel', (fuel <= fuel')%nat ->
     scrape_show_episodes E fuel' show w = Done (concat pages) w2)
  /\ exists evs failures,
       trace w2 = (trace w ++ evs)%list /\
       length failures = Datatypes.S (length pages) /\
       gets evs = probes (url show) 1 failures /\
       forall m, season_url (url show) m ∈ gets evs ->
                 (1 <= m <= Datatypes.S (length pages))%nat.
Proof.
  intros Hpages Hlast Hfuel. split.
  - intros fuel' Hle.
    pose proof (scrape_show_episodes_empty_season E fuel show w pages w1 w2
                  Hpages Hlast Hfuel) as Hrun.
    rewrite <- Hrun. apply scrape_show_episodes_mono; [done|]. by rewrite Hrun.
  - apply seasons_listed_gets in Hpages as (failures & evs & Hlen & Htr & Hgets).
    apply get_episode_links_gets in Hlast as (k & evs' & Htr' & Hgets').
    simpl in Htr.
    exists ([EvPrint ("--- Scraping: " ++ title show ++ " ---")] ++ evs ++ evs')%list,
           (failures ++ [k])%list.
    assert (Hall : gets ([EvPrint ("--- Scraping: " ++ title show ++ " ---")]
                         ++ evs ++ evs')
                   = probes (url show) 1 (failures ++ [k])).
    { rewrite !gets_app, Hgets, Hgets', probes_app, Hlen. simpl.
      by rewrite app_nil_r. }
    split_and!.
    + rewrite Htr', Htr, <- !app_assoc. reflexivity.
    + rewrite length_app, Hlen. simpl. lia.
    + exact Hall.
    + intros m Hm. rewrite Hall in Hm.
      apply elem_of_probes in Hm as (m' & Hm' & Heq).
      apply season_url_inj in Heq as ->.
      rewrite length_app, Hlen in Hm'. simpl in Hm'. lia.
Qed.

Lemma scrape_show_episodes_stops_at_empty_season_witness :
  scrape_show_episodes catalog 9 (Series "Game Changer" show_a)
    (mkWorld 4 [] ∅ 0 ∅)
  = Done [ "https://watch.dropout.tv/game-changer/season:1/videos/one";
           "https://watch.dropout.tv/game-changer/season:1/videos/two";
           "https://watch.dropout.tv/game-changer/season:1/videos/three" ]
      (world_of (scrape_show_episodes catalog 3 (Series "Game Changer" show_a)
                   (mkWorld 4 [] ∅ 0 ∅))).
Proof.
  apply (proj1 (scrape_show_episodes_stops_at_empty_season catalog 3
                  (Series "Game Changer" show_a) (mkWorld 4 [] ∅ 0 ∅)
                  [ [ "https://watch.dropout.tv/game-changer/season:1/videos/one";
                      "https://watch.dropout.tv/game-changer/season:1/videos/two";
                      "https://watch.dropout.tv/game-changer/season:1/videos/three" ] ]
                  (world_of (get_episode_links catalog 3 show_a 1
                     (log (EvPrint "--- Scraping: Game Changer ---")
                          (mkWorld 4 [] ∅ 0 ∅))))
                  (world_of (scrape_show_episodes catalog 3
                     (Series "Game Changer" show_a) (mkWorld 4 [] ∅ 0 ∅)))
                  ltac:(eapply seasons_cons;
                        [vm_compute; reflexivity|discriminate|apply seasons_nil])
                  ltac:(vm_compute; reflexivity)
                  ltac:(simpl; lia))
           9%nat ltac:(lia)).
Defined.

(** ** Start-up *)

Section Startup.
Variable E : Env.

Lemma path_exists_eq p w :
  path_exists p w = Done (bool_decide (present w p)) w.
Proof. reflexivity. Qed.

Lemma file_present w p : is_Some (fs w !! p) -> present w p.
Proof. by left. Qed.

Lemma check_prerequisites_missing w :
  ~ present w COOKIES_FILE ->
  check_prerequisites E w = Raised (SystemExit 1) (cookies_missing_reported E w).
Proof.
  intros Hmiss. unfold check_prerequisites, bind, print, emit, path_exists, raise.
  simpl. rewrite (bool_decide_eq_false_2 _ Hmiss).
  simpl. unfold cookies_missing_reported, log. simpl.
  by rewrite <- !app_assoc.
Qed.

Lemma path_exists_keeps P p : keeps (extends P) (path_exists p).
Proof. intros w. apply extends_refl. Qed.

Lemma check_prerequisites_keeps :
  keeps (extends console_event) (check_prerequisites E).
Proof.
  unfold check_prerequisites, print, sleep.
  repeat first
    [ frame_step
    | apply path_exists_keeps
    | match goal with |- keeps _ (if ?b then _ else _) => destruct b end ].
Qed.

Lemma check_prerequisites_present w :
  present w COOKIES_FILE ->
  exists w', check_prerequisites E w = Done tt w' /\ extends console_event w w'.
Proof.
  intros Hsome. pose proof (check_prerequisites_keeps w) as Hkeep.
  revert Hkeep.
  unfold check_prerequisites, bind, print, sleep, emit, path_exists, raise.
  simpl. rewrite (bool_decide_eq_true_2 _ Hsome). simpl.
  destruct (bool_decide (present _ ARCHIVE_FILE)); simpl;
    intros Hkeep; eexists; (split; [reflexivity|exact Hkeep]).
Qed.

Lemma main_missing_cookies fuel w output_dir :
  argv_outcome E = ArgsParsed output_dir ->
  ~ present w COOKIES_FILE ->
  main E fuel w = Raised (SystemExit 1) (cookies_missing_reported E w).
Proof.
  intros Hargs Hmiss. unfold main, parse_args. rewrite Hargs.
  rewrite (bind_Done _ _ w output_dir w) by reflexivity.
  apply bind_Raised. by apply check_prerequisites_missing.
Qed.

Lemma main_argparse_exit fuel w code :
  argv_outcome E = ArgsExit code ->
  main E fuel w = Raised (SystemExit code) w.
Proof.
  intros Hargs. unfold main, parse_args. rewrite Hargs. reflexivity.
Qed.

End Startup.

(** Claim C5, as amended.  If the cookie file does not exist when the
    program starts, the process exits before any network request is
    made and before the download phase: whatever the fuel, the run ends
    in an uncaught [SystemExit], having only printed to the console (no
    request, no file touched, no downloader launched, the request
    counter unchanged).  The status is 1 when the command line was
    parsed; when argparse itself exits ([--help], usage error) it is
    argparse's status, which is 0 for [--help]. *)
Theorem missing_cookies_exit_before_network (E : Env) (fuel : nat) (w : World) :
  ~ present w COOKIES_FILE ->
  exists code w',
    main E fuel w = Raised (SystemExit code) w' /\
    exit_status (main E fuel w) = Some code /\
    extends print_event w w' /\
    clock w' = clock w /\
    gets (trace w') = gets (trace w) /\
    match argv_outcome E with
    | ArgsParsed _ => code = 1 /\ w' = cookies_missing_reported E w
    | ArgsExit c => code = c /\ w' = w
    end.
Proof.
  intros Hmiss. destruct (argv_outcome E) as [output_dir|c] eqn:Hargs.
  - exists 1, (cookies_missing_reported E w).
    rewrite (main_missing_cookies E fuel w output_dir Hargs Hmiss).
    split_and!; try done.
    + eexists. split_and!; [reflexivity| |done..]. by repeat constructor.
    + unfold cookies_missing_reported. simpl. rewrite gets_app. simpl.
      by rewrite app_nil_r.
  - exists c, w. rewrite (main_argparse_exit E fuel w c Hargs).
    split_and!; try done. apply extends_refl.
Qed.

Lemma missing_cookies_exit_before_network_witness :
  exists code w',
    main catalog 9 without_cookies = Raised (SystemExit code) w' /\
    exit_status (main catalog 9 without_cookies) = Some code /\
    extends print_event without_cookies w' /\
    clock w' = clock without_cookies /\
    gets (trace w') = gets (trace without_cookies) /\
    (code = 1 /\ w' = cookies_missing_reported catalog without_cookies).
Proof.
  apply (missing_cookies_exit_before_network catalog 9 without_cookies).
  apply (bool_decide_eq_false_1 (present without_cookies COOKIES_FILE)).
  vm_compute. reflexivity.
Defined.

(** The claim as stated promises a non-zero status whenever the cookie
    file is missing; a run started with [--help] exits with status 0. *)
Lemma missing_cookies_exit_status_counterexample :
  ~ (forall (E : Env) (fuel : nat) (w : World),
       ~ present w COOKIES_FILE ->
       exists code, exit_status (main E fuel w) = Some code /\ code <> 0).
Proof.
  intros Hclaim.
  assert (Hmiss : ~ present without_cookies COOKIES_FILE).
  { apply (bool_decide_eq_false_1 (present without_cookies COOKIES_FILE)).
    vm_compute. reflexivity. }
  destruct (Hclaim help_requested 9%nat without_cookies Hmiss)
    as (code & Hstatus & Hnonzero).
  vm_compute in Hstatus. congruence.
Qed.

(** ** The download phase *)

Section Dispatch.
Variable E : Env.

Lemma resolve_binary_pure names w :
  resolve_binary E names w = Done (resolved E names w) w.
Proof.
  unfold resolved. induction names as [|name names IH]; [done|].
  simpl. destruct (which E name) as [path|]; [done|].
  unfold bind, isfile, path_exists.
  destruct (bool_decide _); [done|]. simpl.
  destruct (resolve_binary E names w) as [o w'| |]; try discriminate.
  exact IH.
Qed.

Lemma get_ytdlp_binary_eq w :
  get_ytdlp_binary E w =
  match resolved E (ytdlp_candidates E) w with
  | Some b => Done b w
  | None => Raised (FileNotFoundError
                      "yt-dlp binary not found in PATH or current directory") w
  end.
Proof.
  unfold get_ytdlp_binary, bind. fold (ytdlp_candidates E).
  rewrite resolve_binary_pure. by destruct (resolved _ _ _).
Qed.

Lemma get_ffmpeg_path_eq w :
  get_ffmpeg_path E w = Done (resolved E (ffmpeg_candidates E) w) w.
Proof. unfold get_ffmpeg_path. apply resolve_binary_pure. Qed.

Lemma launched_log command w :
  log (EvRun command)
    (log (EvPrint (EQUALS_50 ++ NL))
       (log (EvPrint "STARTING YT-DLP DOWNLOAD")
          (log (EvPrint (NL ++ EQUALS_50)) w)))
  = launched command w.
Proof. unfold log, launched. simpl. by rewrite <- !app_assoc. Qed.

(** Everything [run_ytdlp] can do, case by case. *)
Lemma run_ytdlp_eq output_dir w :
  run_ytdlp E output_dir w =
  if bool_decide (present w COOKIES_FILE) then
    match resolved E (ytdlp_candidates E) w with
    | None =>
        Done tt (log (EvPrint (NL ++ "ERROR: "
                   ++ "yt-dlp binary not found in PATH or current directory")) w)
    | Some ytdlp =>
        let command := dispatch_command E output_dir ytdlp w in
        match proc E command with
        | ProcExit code =>
            if code =? 0
            then Done tt (log (EvPrint (NL ++ "Download batch complete."))
                              (launched command w))
            else Done tt (log (EvPrint ("yt-dlp encountered an error (Code: "
                                        ++ pretty code ++ ")."))
                              (launched command w))
        | ProcInterrupt =>
            Done tt (log (EvPrint (NL ++ "Download cancelled by user."))
                         (launched command w))
        | ProcLaunchError msg => Raised (OSError msg) (launched command w)
        end
    end
  else
    Done tt (log (EvPrint (NL ++ "ERROR: '" ++ COOKIES_FILE
                   ++ "' is missing. Cannot proceed with download.")) w).
Proof.
  unfold run_ytdlp. unfold bind at 1. rewrite path_exists_eq.
  destruct (bool_decide (present w COOKIES_FILE)); simpl; [|done].
  unfold bind at 1. unfold try_except, bind at 1.
  rewrite get_ytdlp_binary_eq.
  destruct (resolved E (ytdlp_candidates E) w) as [ytdlp|]; simpl; [|done].
  unfold bind at 1. rewrite get_ffmpeg_path_eq.
  fold (dispatch_command E output_dir ytdlp w).
  set (command := dispatch_command E output_dir ytdlp w).
  unfold print, emit, bind, try_except, subprocess_run. simpl.
  rewrite launched_log.
  destruct (proc E command) as [code| |msg]; simpl; [|done..].
  by destruct (code =? 0).
Qed.

Lemma launched_extends command w : extends dispatch_event w (launched command w).
Proof.
  eexists. split_and!; [reflexivity| |done..]. by repeat constructor.
Qed.

Lemma log_print_extends (P : event -> Prop) line w :
  P (EvPrint line) -> extends P w (log (EvPrint line) w).
Proof. intros HP. apply (keeps_emit P _ HP w). Qed.

Lemma run_ytdlp_keeps output_dir :
  keeps (extends dispatch_event) (run_ytdlp E output_dir).
Proof.
  intros w. rewrite run_ytdlp_eq.
  destruct (bool_decide _); [|by apply log_print_extends].
  destruct (resolved _ _ _) as [ytdlp|]; [|by apply log_print_extends].
  cbv zeta.
  destruct (proc E _) as [code| |msg]; [destruct (code =? 0)| |]; simpl;
    try (eapply extends_trans; [apply launched_extends|by apply log_print_extends]).
  apply launched_extends.
Qed.

End Dispatch.

(** Claim C7, as amended.  The download phase never runs out of fuel
    and lets no exception through except a failure to launch the
    resolved downloader: (1) it returns normally unless
    [subprocess.run] fails with an [OSError] for the command it built,
    and that is the only exception that escapes; it only prints and
    launches; (2) when the downloader binary is not found, it prints
    the error and returns without launching anything; (3) when the
    downloader exits with a non-zero code, the code is printed and the
    call returns; (4) when the user interrupts the download, this is
    printed and the call returns. *)
Theorem run_ytdlp_catches (E : Env) (output_dir : string) (w : World) :
  (exists w',
     extends dispatch_event w w' /\
     (run_ytdlp E output_dir w = Done tt w' \/
      exists msg ytdlp,
        run_ytdlp E output_dir w = Raised (OSError msg) w' /\
        resolved E (ytdlp_candidates E) w = Some ytdlp /\
        proc E (dispatch_command E output_dir ytdlp w) = ProcLaunchError msg))
  /\ (is_Some (fs w !! COOKIES_FILE) ->
      resolved E (ytdlp_candidates E) w = None ->
      run_ytdlp E output_dir w =
      Done tt (log (EvPrint (NL ++ "ERROR: "
                 ++ "yt-dlp binary not found in PATH or current directory")) w))
  /\ (forall ytdlp code,
        is_Some (fs w !! COOKIES_FILE) ->
        resolved E (ytdlp_candidates E) w = Some ytdlp ->
        proc E (dispatch_command E output_dir ytdlp w) = ProcExit code ->
        code <> 0 ->
        run_ytdlp E output_dir w =
        Done tt (log (EvPrint ("yt-dlp encountered an error (Code: "
                               ++ pretty code ++ ")."))
                     (launched (dispatch_command E output_dir ytdlp w) w)))
  /\ (forall ytdlp,
        is_Some (fs w !! COOKIES_FILE) ->
        resolved E (ytdlp_candidates E) w = Some ytdlp ->
        proc E (dispatch_command E output_dir ytdlp w) = ProcInterrupt ->
        run_ytdlp E output_dir w =
        Done tt (log (EvPrint (NL ++ "Download cancelled by user."))
                     (launched (dispatch_command E output_dir ytdlp w) w))).
Proof.
  split_and!.
  - exists (world_of (run_ytdlp E output_dir w)).
    split; [apply run_ytdlp_keeps|].
    rewrite run_ytdlp_eq.
    destruct (bool_decide _); [|by left].
    destruct (resolved _ _ _) as [ytdlp|] eqn:Hres; [|by left].
    cbv zeta.
    destruct (proc E _) as [code| |msg] eqn:Hproc;
      [destruct (code =? 0); by left|by left|].
    right. exists msg, ytdlp. done.
  - intros Hcookies%file_present Hres. rewrite run_ytdlp_eq, Hres.
    by rewrite (bool_decide_eq_true_2 _ Hcookies).
  - intros ytdlp code Hcookies%file_present Hres Hproc Hcode.
    rewrite run_ytdlp_eq, Hres, (bool_decide_eq_true_2 _ Hcookies).
    cbv zeta. rewrite Hproc.
    by destruct (Z.eqb_spec code 0).
  - intros ytdlp Hcookies%file_present Hres Hproc.
    rewrite run_ytdlp_eq, Hres, (bool_decide_eq_true_2 _ Hcookies).
    cbv zeta. by rewrite Hproc.
Qed.

Lemma run_ytdlp_catches_witness :
  run_ytdlp catalog_failing_download "/srv/media" ready =
  Done tt (log (EvPrint "yt-dlp encountered an error (Code: 1).")
             (launched (dispatch_command catalog_failing_download "/srv/media"
                          "/usr/bin/yt-dlp" ready) ready)).
Proof.
  apply (proj1 (proj2 (proj2 (run_ytdlp_catches catalog_failing_download
                                "/srv/media" ready)))
           "/usr/bin/yt-dlp" 1).
  - vm_compute. eauto.
  - reflexivity.
  - reflexivity.
  - discriminate.
Defined.

(** The claim as stated lets no exception through; a downloader that
    is found as a plain file of the working directory but cannot be
    executed makes [subprocess.run] raise, nothing catches it, and the
    process ends with a traceback. *)
Lemma run_ytdlp_never_raises_counterexample :
  ~ (forall (E : Env) (output_dir : string) (w : World),
       exists w', run_ytdlp E output_dir w = Done tt w')
  /\ exit_status (main catalog_unlaunchable 9 with_local_downloader) = Some 1.
Proof.
  split; [|vm_compute; reflexivity].
  intros Hclaim.
  destruct (Hclaim catalog_unlaunchable "/srv/media" with_local_downloader)
    as (w' & Hrun).
  vm_compute in Hrun. discriminate.
Qed.

(** ** The output file *)

Lemma str_app_nil_r (s : string) : s ++ "" = s.
Proof.
  induction s as [|c s IH]; [done|].
  change (String c (s ++ "") = String c s). by f_equal.
Qed.

Lemma str_app_assoc (s1 s2 s3 : string) : (s1 ++ s2) ++ s3 = s1 ++ (s2 ++ s3).
Proof.
  induction s1 as [|c s1 IH]; [done|].
  change (String c ((s1 ++ s2) ++ s3) = String c (s1 ++ (s2 ++ s3))). by f_equal.
Qed.

Lemma concat_str_app l1 l2 :
  concat_str (l1 ++ l2) = concat_str l1 ++ concat_str l2.
Proof.
  induction l1 as [|s l1 IH]; simpl; [done|].
  by rewrite IH, str_app_assoc.
Qed.

Lemma lines_app urls1 urls2 : lines (urls1 ++ urls2) = (lines urls1 ++ lines urls2)%list.
Proof. apply fmap_app. Qed.

Lemma writes_app evs1 evs2 : writes (evs1 ++ evs2) = (writes evs1 ++ writes evs2)%list.
Proof. apply omap_app. Qed.

Lemma writes_no_file evs : Forall no_file_event evs -> writes evs = [].
Proof.
  induction 1 as [|e evs He _ IH]; [done|].
  destruct e; simpl in *; done.
Qed.

Lemma no_file_no_truncation e : no_file_event e -> no_truncation e.
Proof. by destruct e. Qed.

Lemma appends_refl w : appends [] w w.
Proof.
  exists []. unfold content. simpl.
  rewrite app_nil_r, str_app_nil_r, Nat.add_0_r. split_and!; done.
Qed.

Lemma appends_trans urls1 urls2 w1 w2 w3 :
  appends urls1 w1 w2 -> appends urls2 w2 w3 -> appends (urls1 ++ urls2) w1 w3.
Proof.
  intros (evs1 & Ht1 & Hn1 & Hw1 & Hc1 & Hs1 & Hu1)
         (evs2 & Ht2 & Hn2 & Hw2 & Hc2 & Hs2 & Hu2).
  exists (evs1 ++ evs2)%list. split_and!.
  - by rewrite Ht2, Ht1, app_assoc.
  - by apply Forall_app.
  - by rewrite writes_app, Hw1, Hw2, lines_app.
  - by rewrite Hc2, Hc1, lines_app, concat_str_app, str_app_assoc.
  - auto.
  - rewrite Hu2, Hu1, length_app. lia.
Qed.

Lemma extends_appends (P : event -> Prop) w w' :
  (forall e, P e -> no_file_event e) -> extends P w w' -> appends [] w w'.
Proof.
  intros HP (evs & Ht & Hall & Hfs & Hn & _).
  assert (Hnf : Forall no_file_event evs) by (eapply Forall_impl; eauto).
  exists evs. unfold content. rewrite Hfs, Hn. simpl.
  rewrite str_app_nil_r, Nat.add_0_r. split_and!; try done.
  - eapply Forall_impl; [exact Hnf|]. apply no_file_no_truncation.
  - by apply writes_no_file.
Qed.

Lemma scrape_no_file e : scrape_event e -> no_file_event e.
Proof. by destruct e. Qed.

Lemma console_no_file e : console_event e -> no_file_event e.
Proof. by destruct e. Qed.

Lemma dispatch_no_file e : dispatch_event e -> no_file_event e.
Proof. by destruct e. Qed.

Lemma write_urls_appends urls : forall w,
  exists w', write_urls urls w = Done tt w' /\ appends urls w w'.
Proof.
  unfold write_urls.
  induction urls as [|u urls IH]; intros w.
  - exists w. split; [done|apply appends_refl].
  - cbn [for_each]. unfold bind at 1. unfold bind at 1.
    unfold file_write at 1. cbn beta iota.
    unfold bind at 1. unfold get_total_urls, set_total_urls. cbn beta iota.
    match goal with |- context [for_each urls ?b tt ?w1] =>
      destruct (IH w1) as (w' & Hrun & Happ); exists w'; split; [exact Hrun|]
    end.
    change (u :: urls) with ([u] ++ urls)%list.
    eapply appends_trans; [|exact Happ].
    exists [EvWrite OUTPUT_FILE (u ++ NL)]. unfold content. simpl.
    rewrite lookup_insert_eq. simpl. rewrite str_app_nil_r.
    split_and!;
      first [done | by repeat constructor | lia | by (intros _; eauto)].
Qed.

(** ** Scraping the episodes and writing them *)

Section Writing.
Variable E : Env.

Lemma get_episode_links_season_page fuel show n w links w' :
  get_episode_links E fuel (url show) n w = Done links w' ->
  season_page E show n links.
Proof.
  rewrite get_episode_links_eq. intros Hrun.
  destruct (blocking_get _ _ _ _ _) as [r w0| |] eqn:Hget; try discriminate.
  injection Hrun as <- <-.
  apply blocking_get_Done_inv in Hget as (k & _ & _ & Hnet & Hok & _).
  exists (clock w + k)%nat, r. done.
Qed.

Lemma seasons_listed_pages fuel show n w pages w' :
  seasons_listed E fuel (url show) n w pages w' ->
  forall j links, pages !! j = Some links -> season_page E show (n + j) links.
Proof.
  induction 1 as [n w|n w links0 w1 rest w2 Hget Hne _ IH]; intros j links Hj.
  - by rewrite lookup_nil in Hj.
  - destruct j as [|j]; simpl in Hj.
    + injection Hj as <-. rewrite Nat.add_0_r.
      by eapply get_episode_links_season_page.
    + replace (n + S j)%nat with (S n + j)%nat by lia. by apply IH.
Qed.

Lemma scrape_show_episodes_show_urls fuel show w eps w' :
  scrape_show_episodes E fuel show w = Done eps w' -> show_urls E show eps.
Proof.
  intros Hrun.
  apply scrape_show_episodes_Done_inv in Hrun
    as (pages & w1 & _ & Hpages & _ & ->).
  exists pages. split; [done|]. intros j links Hj.
  by apply (seasons_listed_pages _ _ _ _ _ _ Hpages j links).
Qed.

(** One show: either its URLs are scraped and then appended, or the
    scraping stops and nothing is written for it. *)
Lemma show_written fuel show w :
  let body := (episode_urls <- scrape_show_episodes E fuel show ;;
               write_urls episode_urls) in
  (exists eps w', body w = Done tt w' /\ appends eps w w' /\ show_urls E show eps)
  \/ (appends [] w (world_of (body w)) /\
      (body w = Raised KeyboardInterrupt (world_of (body w)) \/
       body w = OutOfFuel (world_of (body w)))).
Proof.
  intros body. unfold body, bind.
  pose proof (scrape_show_episodes_keeps E fuel show w) as Hkeep.
  pose proof (scrape_show_episodes_raises E fuel show w) as Hraise.
  apply (extends_appends _ _ _ scrape_no_file) in Hkeep.
  destruct (scrape_show_episodes E fuel show w) as [eps w1|e w1|w1] eqn:Hrun.
  - left. destruct (write_urls_appends eps w1) as (w' & Hw & Happ).
    exists eps, w'. rewrite Hw. split_and!; [done| |].
    + change eps with ([] ++ eps)%list. by eapply appends_trans.
    + by eapply scrape_show_episodes_show_urls.
  - right. simpl in *. split; [done|]. left.
    by rewrite (Hraise e w1 eq_refl).
  - right. simpl in *. split; [done|]. by right.
Qed.

Lemma shows_written fuel series_list : forall w,
  let loop := for_each series_list
                (fun show (_ : unit) =>
                   episode_urls <- scrape_show_episodes E fuel show ;;
                   write_urls episode_urls) tt in
  exists per_show,
    appends (concat per_show) w (world_of (loop w)) /\
    Forall2 (show_urls E) (take (length per_show) series_list) per_show /\
    (loop w = Done tt (world_of (loop w)) \/
     loop w = Raised KeyboardInterrupt (world_of (loop w)) \/
     loop w = OutOfFuel (world_of (loop w))).
Proof.
  induction series_list as [|show rest IH]; intros w; cbv zeta.
  - exists []. simpl. split_and!; [apply appends_refl|constructor|by left].
  - destruct (show_written fuel show w)
      as [(eps & w1 & Hbody & Happ & Hurls)|(Happ & Hstop)]; cbv zeta in *.
    + match goal with |- context [for_each (show :: rest) ?B tt w] =>
        assert (Heq : for_each (show :: rest) B tt w = for_each rest B tt w1)
          by (cbn [for_each]; by erewrite bind_Done)
      end.
      rewrite Heq.
      destruct (IH w1) as (per_show & Happ' & Hall & Hres).
      exists (eps :: per_show). split_and!.
      * simpl. by eapply appends_trans.
      * simpl. by constructor.
      * exact Hres.
    + exists []. simpl take. simpl concat.
      destruct Hstop as [Hstop|Hstop].
      * match goal with |- context [for_each (show :: rest) ?B tt w] =>
          assert (Heq : for_each (show :: rest) B tt w
                        = Raised KeyboardInterrupt
                            (world_of ((episode_urls <- scrape_show_episodes E fuel show ;;
                                        write_urls episode_urls) w)))
            by (cbn [for_each]; by erewrite bind_Raised)
        end.
        rewrite Heq. cbn [world_of].
        split_and!; [done|constructor|auto].
      * match goal with |- context [for_each (show :: rest) ?B tt w] =>
          assert (Heq : for_each (show :: rest) B tt w
                        = OutOfFuel
                            (world_of ((episode_urls <- scrape_show_episodes E fuel show ;;
                                        write_urls episode_urls) w)))
            by (cbn [for_each]; by erewrite bind_OutOfFuel)
        end.
        rewrite Heq. cbn [world_of].
        split_and!; [done|constructor|auto].
Qed.

Lemma open_append_appends w :
  appends [] w (world_of (open_append OUTPUT_FILE w)).
Proof.
  exists [EvOpenA OUTPUT_FILE]. unfold content. simpl.
  rewrite lookup_insert_eq. simpl. rewrite str_app_nil_r, Nat.add_0_r.
  split_and!; first [done | by repeat constructor | by (intros _; eauto)].
Qed.

Lemma scrape_and_write_eq fuel series_list w :
  scrape_and_write E fuel series_list w =
  match for_each series_list
          (fun show (_ : unit) =>
             episode_urls <- scrape_show_episodes E fuel show ;;
             write_urls episode_urls) tt
          (world_of (open_append OUTPUT_FILE w)) with
  | Done a w' => Done a w'
  | Raised KeyboardInterrupt w' =>
      Done tt (log (EvPrint (NL ++ "Scraping interrupted! Proceeding to download with whatever we found...")) w')
  | Raised e w' => Raised e w'
  | OutOfFuel w' => OutOfFuel w'
  end.
Proof.
  unfold scrape_and_write, try_except. unfold bind at 1.
  unfold open_append at 1. cbn [world_of open_append].
  destruct (for_each _ _ _ _) as [a w'|[] w'|w']; reflexivity.
Qed.

(** The guarded loop returns or is still running; an interrupt of the
    user is caught.  What it wrote is, show after show in the order of
    the list, the URLs of a beginning of the list. *)
Lemma scrape_and_write_spec fuel series_list w :
  exists per_show w',
    appends (concat per_show) w w' /\
    Forall2 (show_urls E) (take (length per_show) series_list) per_show /\
    (scrape_and_write E fuel series_list w = Done tt w' \/
     scrape_and_write E fuel series_list w = OutOfFuel w').
Proof.
  rewrite scrape_and_write_eq.
  pose proof (open_append_appends w) as Hopen.
  destruct (shows_written fuel series_list (world_of (open_append OUTPUT_FILE w)))
    as (per_show & Happ & Hall & Hres).
  cbv zeta in *.
  assert (Happ' := appends_trans _ _ _ _ _ Hopen Happ). simpl app in Happ'.
  destruct Hres as [Hres|[Hres|Hres]]; rewrite Hres.
  - exists per_show. eexists. split_and!; [exact Happ'|done|by left].
  - exists per_show. eexists. split_and!; [|done|left; reflexivity].
    rewrite <- (app_nil_r (concat per_show)).
    eapply appends_trans; [exact Happ'|].
    eapply (extends_appends print_event); [by intros []|].
    by apply log_print_extends.
  - exists per_show. eexists. split_and!; [exact Happ'|done|by right].
Qed.

End Writing.

(** ** The main block, phase by phase *)

Section Main.
Variable E : Env.

Lemma main_anatomy fuel w :
  main E fuel w =
  match startup E w with
  | Done output_dir w0 =>
      match scrape_all_series E fuel w0 with
      | Done series_list w1 =>
          match scrape_and_write E fuel series_list (truncated w1) with
          | Done _ w3 => finish E output_dir w3
          | Raised e w3 => Raised e w3
          | OutOfFuel w3 => OutOfFuel w3
          end
      | Raised e w1 => Raised e w1
      | OutOfFuel w1 => OutOfFuel w1
      end
  | Raised e w0 => Raised e w0
  | OutOfFuel w0 => OutOfFuel w0
  end.
Proof.
  unfold main, startup, bind, print, emit, ret, open_truncate, set_total_urls.
  destruct (parse_args E w) as [d w0| |]; [|done..].
  destruct (check_prerequisites E w0) as [[] w1| |]; [|done..].
  destruct (makedirs E _ w1) as [[] w1'| |]; [|done..].
  cbn beta iota.
  destruct (scrape_all_series _ _ _) as [series_list w2| |]; [|done..].
  cbn beta iota.
  match goal with |- context [scrape_and_write E fuel series_list ?w3] =>
    replace w3 with (truncated w2)
      by (unfold truncated, log; simpl; by rewrite <- app_assoc)
  end.
  destruct (scrape_and_write _ _ _ _) as [[] w4| |]; [|done..].
  reflexivity.
Qed.

(** Creating the output directory touches no regular file, whether it
    succeeds or not. *)
Lemma makedirs_keeps path : keeps (prepares no_file_event) (makedirs E path).
Proof.
  intros w. exists [EvMakedirs path]. unfold makedirs. cbv zeta.
  destruct (bool_decide (path ∈ dirs w));
    [split_and!; first [done|by repeat constructor]|].
  destruct (bool_decide (is_Some (fs w !! path)));
    [split_and!; first [done|by repeat constructor]|].
  destruct (mkdir E path); simpl;
    (split_and!; [done|by repeat constructor|done|done|apply union_subseteq_r]).
Qed.

(** The directories it adds are those the system reports. *)
Lemma makedirs_grows path : keeps (grows (list_to_set (made_dirs E path))) (makedirs E path).
Proof.
  assert (Hframe : forall (X D : gset string), X ⊆ X /\ X ⊆ X ∪ D).
  { intros X D. split; [done|apply union_subseteq_l]. }
  intros w. unfold makedirs, made_dirs, grows. cbv zeta.
  destruct (bool_decide (path ∈ dirs w)); [apply Hframe|].
  destruct (bool_decide (is_Some (fs w !! path))); [apply Hframe|].
  destruct (mkdir E path); simpl;
    (split; [apply union_subseteq_r|];
     intros d; rewrite !elem_of_union; tauto).
Qed.

Lemma makedirs_not_out_of_fuel path w w' : makedirs E path w <> OutOfFuel w'.
Proof.
  unfold makedirs. cbv zeta.
  destruct (bool_decide (path ∈ dirs w)); [done|].
  destruct (bool_decide (is_Some (fs w !! path))); [done|].
  by destruct (mkdir E path).
Qed.

Lemma startup_keeps : keeps (prepares no_file_event) (startup E).
Proof.
  unfold startup, print.
  apply keeps_bind; [apply prepares_trans| |intros arg].
  { unfold parse_args.
    destruct (argv_outcome E); intros w; apply prepares_refl. }
  apply keeps_bind; [apply prepares_trans| |intros _].
  { eapply keeps_weaken; [|apply check_prerequisites_keeps].
    intros w w'. apply extends_prepares, console_no_file. }
  apply keeps_bind; [apply prepares_trans|apply makedirs_keeps|intros _].
  apply keeps_bind; [apply prepares_trans| |intros _].
  { eapply keeps_weaken; [|apply (keeps_emit no_file_event); exact I].
    intros w w'. by apply extends_prepares. }
  intros w. apply prepares_refl.
Qed.

Lemma startup_not_out_of_fuel w w' : startup E w <> OutOfFuel w'.
Proof.
  unfold startup, parse_args.
  destruct (argv_outcome E); [|done].
  unfold bind at 1. unfold ret at 1. unfold bind at 1.
  destruct (check_prerequisites E w) as [[] w0|e w0|w0] eqn:Hcheck; [|done|].
  - unfold bind at 1.
    destruct (makedirs E _ w0) as [[] w1|e w1|w1] eqn:Hmk; [done|done|].
    by apply makedirs_not_out_of_fuel in Hmk.
  - revert Hcheck.
    unfold check_prerequisites, bind, print, sleep, emit, path_exists, raise, ret.
    simpl.
    destruct (negb (bool_decide (present _ COOKIES_FILE))); [done|]. simpl.
    destruct (negb (bool_decide (present _ ARCHIVE_FILE))); done.
Qed.

Lemma finish_eq output_dir w :
  finish E output_dir w =
  let reported :=
    log (EvPrint (NL ++ "Scraping Finished. Found "
                     ++ pretty (total_urls w) ++ " links.")) w in
  if bool_decide (0 < total_urls w)%nat then run_ytdlp E output_dir reported
  else Done tt (log (EvPrint "No URLs found. Exiting.") reported).
Proof.
  unfold finish, bind, get_total_urls, print, emit. cbv zeta.
  by destruct (bool_decide _).
Qed.

Lemma finish_keeps output_dir : keeps (extends dispatch_event) (finish E output_dir).
Proof.
  intros w. rewrite finish_eq. cbv zeta.
  destruct (bool_decide _).
  - eapply extends_trans; [by apply log_print_extends|apply run_ytdlp_keeps].
  - eapply extends_trans; by apply log_print_extends.
Qed.

(** The three ways a run can go: it stops during start-up; it stops
    during the index walk; or it rewrites the output file and scrapes
    the episodes, and then either is still scraping or goes on to the
    report and the download phase. *)
Lemma main_phases fuel w :
  (exists e w', startup E w = Raised e w' /\ main E fuel w = Raised e w' /\
                prepares no_file_event w w')
  \/ (exists output_dir w0 w',
        startup E w = Done output_dir w0 /\
        prepares no_file_event w w' /\
        ((scrape_all_series E fuel w0 = Raised KeyboardInterrupt w' /\
          main E fuel w = Raised KeyboardInterrupt w') \/
         (scrape_all_series E fuel w0 = OutOfFuel w' /\
          main E fuel w = OutOfFuel w')))
  \/ (exists output_dir w0 series_list w1 per_show w3,
        startup E w = Done output_dir w0 /\
        scrape_all_series E fuel w0 = Done series_list w1 /\
        prepares no_file_event w w1 /\
        appends (concat per_show) (truncated w1) w3 /\
        Forall2 (show_urls E) (take (length per_show) series_list) per_show /\
        ((scrape_and_write E fuel series_list (truncated w1) = OutOfFuel w3 /\
          main E fuel w = OutOfFuel w3) \/
         (scrape_and_write E fuel series_list (truncated w1) = Done tt w3 /\
          main E fuel w = finish E output_dir w3))).
Proof.
  rewrite main_anatomy.
  pose proof (startup_keeps w) as Hstart.
  destruct (startup E w) as [output_dir w0|e w0|w0] eqn:Hs; simpl in Hstart.
  - pose proof (scrape_all_series_keeps E fuel w0) as Hwalk.
    apply (extends_prepares _ no_file_event _ _ scrape_no_file) in Hwalk.
    pose proof (prepares_trans _ _ _ _ Hstart Hwalk) as Hpre.
    pose proof (scrape_all_series_raises E fuel w0) as Hraise.
    destruct (scrape_all_series E fuel w0) as [series_list w1|e w1|w1] eqn:Hw;
      simpl in Hpre.
    + right. right.
      destruct (scrape_and_write_spec E fuel series_list (truncated w1))
        as (per_show & w3 & Happ & Hall & [Hrun|Hrun]); rewrite Hrun.
      * exists output_dir, w0, series_list, w1, per_show, w3.
        split_and!; try done. by right.
      * exists output_dir, w0, series_list, w1, per_show, w3.
        split_and!; try done. by left.
    + right. left. pose proof (Hraise e w1 eq_refl) as ->.
      exists output_dir, w0, w1. split_and!; try done. by left.
    + right. left. exists output_dir, w0, w1. split_and!; try done. by right.
  - left. exists e, w0. done.
  - by apply startup_not_out_of_fuel in Hs.
Qed.

(** More fuel never changes a run that has ended. *)
Lemma scrape_and_write_mono series_list fuel fuel' w :
  (fuel <= fuel')%nat ->
  finished (scrape_and_write E fuel series_list w) ->
  scrape_and_write E fuel' series_list w = scrape_and_write E fuel series_list w.
Proof.
  intros Hle Hfin. unfold scrape_and_write in *.
  apply try_except_mono; [|done]. intros Hfin1.
  apply bind_mono; [done| |done]. intros _ w1 Hfin2.
  apply for_each_mono; [|done]. intros show [] w2 Hfin3.
  apply bind_mono; [|done|done]. intros Hfin4.
  by apply scrape_show_episodes_mono.
Qed.

Lemma main_mono fuel fuel' w :
  (fuel <= fuel')%nat ->
  finished (main E fuel w) -> main E fuel' w = main E fuel w.
Proof.
  intros Hle Hfin. rewrite !main_anatomy in *.
  destruct (startup E w) as [output_dir w0| |]; [|done..].
  assert (Hwalk : finished (scrape_all_series E fuel w0)).
  { destruct (scrape_all_series E fuel w0); simpl in *; done. }
  rewrite (scrape_all_series_mono E fuel fuel' w0 Hle Hwalk).
  destruct (scrape_all_series E fuel w0) as [series_list w1| |]; [|done..].
  assert (Hscrape : finished (scrape_and_write E fuel series_list (truncated w1))).
  { destruct (scrape_and_write E fuel series_list (truncated w1));
      simpl in *; done. }
  by rewrite (scrape_and_write_mono series_list fuel fuel' _ Hle Hscrape).
Qed.

End Main.

(** ** Absolute URLs *)

Lemma str_app_cons c (s t : string) : String c s ++ t = String c (s ++ t).
Proof. reflexivity. Qed.

Lemma str_app_nil_l (t : string) : "" ++ t = t.
Proof. reflexivity. Qed.

(** The URLs of a show are absolute when [urljoin] makes an absolute
    URL of every link served for the show. *)
Lemma show_urls_absolute (E : Env) show urls :
  joins_absolute E show -> show_urls E show urls ->
  Forall (fun u => absolute_url u = true) urls.
Proof.
  intros Hjoin (pages & -> & Hpages). apply Forall_concat, Forall_lookup.
  intros j links Hj.
  destruct (Hpages j links Hj) as (c & r & Hnet & _ & ->).
  apply Forall_forall. intros u Hu.
  apply list_elem_of_fmap in Hu as (href & -> & Hhref).
  by eapply Hjoin.
Qed.

Lemma shows_urls_absolute (E : Env) shows per_show :
  Forall (joins_absolute E) shows ->
  Forall2 (show_urls E) shows per_show ->
  Forall (fun u => absolute_url u = true) (concat per_show).
Proof.
  intros Hjoin Hall. revert Hjoin.
  induction Hall as [|show urls shows per_show Hurls _ IH]; simpl;
    [constructor|].
  intros [Hshow Hshows]%Forall_cons. apply Forall_app.
  split; [by eapply show_urls_absolute|by apply IH].
Qed.

(** ** What a run leaves in the output file *)

Lemma content_truncated w : content (truncated w) = "".
Proof. unfold content, truncated. simpl. by rewrite lookup_insert_eq. Qed.

(** Either the run stopped before it touched the output file, or it
    rewrote the file empty and, from then on, appended to it the URLs
    of a beginning of the series list, show after show. *)
Lemma main_output (E : Env) (fuel : nat) (w : World) :
  let w' := world_of (main E fuel w) in
  (exists evs,
     trace w' = (trace w ++ evs)%list /\ Forall no_file_event evs /\
     fs w' = fs w /\ forall w'', main E fuel w <> Done tt w'')
  \/ (exists pre post output_dir w0 series_list w1 per_show,
        startup E w = Done output_dir w0 /\
        scrape_all_series E fuel w0 = Done series_list w1 /\
        trace w' = (trace w ++ pre ++ [EvOpenW OUTPUT_FILE] ++ post)%list /\
        Forall no_file_event pre /\
        Forall no_truncation post /\
        writes post = lines (concat per_show) /\
        fs w' !! OUTPUT_FILE = Some (concat_str (lines (concat per_show))) /\
        Forall2 (show_urls E) (take (length per_show) series_list) per_show).
Proof.
  cbv zeta.
  destruct (main_phases E fuel w)
    as [(e & w' & _ & -> & Hext)
       |[(output_dir & w0 & w' & _ & Hext & [[_ ->]|[_ ->]])
        |(output_dir & w0 & series_list & w1 & per_show & w3 & Hstart & Hwalk
          & Hext & Happ & Hall & Hrest)]].
  - left. destruct Hext as (evs & Ht & Hnf & Hfs & _). exists evs. done.
  - left. destruct Hext as (evs & Ht & Hnf & Hfs & _). exists evs. done.
  - left. destruct Hext as (evs & Ht & Hnf & Hfs & _). exists evs. done.
  - right.
    destruct Hext as (pre & Ht1 & Hpre & _ & _).
    destruct Happ as (evs & Ht3 & Hnt & Hw & Hc & Hsome & _).
    rewrite content_truncated, str_app_nil_l in Hc.
    assert (Hfile : fs w3 !! OUTPUT_FILE
                    = Some (concat_str (lines (concat per_show)))).
    { destruct Hsome as [x Hx].
      - unfold truncated. simpl. rewrite lookup_insert_eq. eauto.
      - unfold content in Hc. rewrite Hx in Hc. simpl in Hc. by rewrite Hx, Hc. }
    assert (Htrace : trace w3
                     = (trace w ++ (pre ++ [EvPrint "--- Scraping Episodes & Writing to File ---"])
                          ++ [EvOpenW OUTPUT_FILE] ++ evs)%list).
    { rewrite Ht3. unfold truncated. simpl. rewrite Ht1.
      by rewrite <- !app_assoc. }
    assert (Hpre' : Forall no_file_event
                      (pre ++ [EvPrint "--- Scraping Episodes & Writing to File ---"])).
    { apply Forall_app. split; [done|]. by repeat constructor. }
    destruct Hrest as [[_ ->]|[_ ->]].
    + exists (pre ++ [EvPrint "--- Scraping Episodes & Writing to File ---"])%list,
             evs, output_dir, w0, series_list, w1, per_show.
      simpl. split_and!; done.
    + destruct (finish_keeps E output_dir w3) as (evs' & Ht' & Hd & Hfs' & _).
      assert (Hnf' : Forall no_file_event evs').
      { eapply Forall_impl; [exact Hd|]. apply dispatch_no_file. }
      exists (pre ++ [EvPrint "--- Scraping Episodes & Writing to File ---"])%list,
             (evs ++ evs')%list, output_dir, w0, series_list, w1, per_show.
      split_and!; try done.
      * rewrite Ht', Htrace. by rewrite <- !app_assoc.
      * apply Forall_app. split; [done|].
        eapply Forall_impl; [exact Hnf'|]. apply no_file_no_truncation.
      * rewrite writes_app, Hw, (writes_no_file _ Hnf'). apply app_nil_r.
      * by rewrite Hfs'.
Qed.



(** Claim C9, as amended.  Every line written to the output file is
    the join of the URL of a show with the [href] of an episode link,
    followed by a newline, and the lines come in discovery order: they
    are the URLs of a beginning of the series list returned by the
    index walk (the whole list when the scraping is neither interrupted
    nor still going), show after show in the order of that list; the
    URLs of a show are those of its season 1, then season 2, and so on;
    the URLs of a season are the [href]s of the episode links of the
    page served for that season, in page order, each joined to the URL
    of the show with [urljoin].  The script checks neither the URL of
    the show nor the result of the join: the lines are absolute URLs
    when [urljoin] makes an absolute URL of every link served for the
    shows that were written. *)
Theorem output_lines_in_discovery_order (E : Env) (fuel : nat) (w : World) :
  exists evs series_list per_show,
    trace (world_of (main E fuel w)) = (trace w ++ evs)%list /\
    (per_show = [] \/
     exists output_dir w0 w1,
       startup E w = Done output_dir w0 /\
       scrape_all_series E fuel w0 = Done series_list w1) /\
    Forall2 (show_urls E) (take (length per_show) series_list) per_show /\
    writes evs = lines (concat per_show) /\
    (Forall (joins_absolute E) (take (length per_show) series_list) ->
     Forall (fun u => absolute_url u = true) (concat per_show)).
Proof.
  destruct (main_output E fuel w)
    as [(evs & Ht & Hnf & _ & _)
       |(pre & post & od & w0 & sl & w1 & per_show & Hstart & Hwalk & Ht & Hpre
         & Hpost & Hw & _ & Hall)]; cbv zeta in *.
  - exists evs, [], []. split_and!.
    + done.
    + by left.
    + constructor.
    + by rewrite (writes_no_file _ Hnf).
    + intros _. constructor.
  - exists (pre ++ [EvOpenW OUTPUT_FILE] ++ post)%list, sl, per_show.
    split_and!; try done.
    + right. by exists od, w0, w1.
    + rewrite !writes_app, (writes_no_file _ Hpre), Hw. reflexivity.
    + intros Hjoin. by eapply shows_urls_absolute.
Qed.

Lemma catalog_joins_absolute show :
  absolute_url (url show) = true -> joins_absolute catalog show.
Proof.
  intros Hbase n c r href _ _.
  change (urljoin catalog (url show) href)
    with (catalog_urljoin (url show) href).
  unfold catalog_urljoin. rewrite Hbase.
  destruct (absolute_url href) eqn:Habs; [exact Habs|].
  vm_compute. reflexivity.
Qed.

Lemma output_lines_in_discovery_order_witness :
  exists evs series_list per_show,
    trace (world_of (main catalog 9 ready)) = (trace ready ++ evs)%list /\
    Forall2 (show_urls catalog) (take (length per_show) series_list) per_show /\
    writes evs = lines (concat per_show) /\
    Forall (fun u => absolute_url u = true) (concat per_show).
Proof.
  destruct (output_lines_in_discovery_order catalog 9 ready)
    as (evs & series_list & per_show & Ht & Hlist & Hall & Hw & Habs).
  exists evs, series_list, per_show.
  split; [exact Ht|]. split; [exact Hall|]. split; [exact Hw|].
  apply Habs.
  destruct Hlist as [->|(od & w0 & w1 & Hstart & Hwalk)]; [constructor|].
  assert (Hs : startup catalog ready
               = Done "/home/user/dropout/Dropout"
                      (world_of (startup catalog ready)))
    by (vm_compute; reflexivity).
  rewrite Hs in Hstart. injection Hstart as <- <-.
  assert (Hl : scrape_all_series catalog 9 (world_of (startup catalog ready))
               = Done [Series "Game Changer" show_a; Series "Unknown" show_b]
                      (world_of (scrape_all_series catalog 9
                                   (world_of (startup catalog ready)))))
    by (vm_compute; reflexivity).
  rewrite Hl in Hwalk. injection Hwalk as <- _.
  apply Forall_take.
  repeat (apply Forall_cons; split; [by apply catalog_joins_absolute|]).
  constructor.
Defined.

(** The claim as stated has every line an absolute URL.  A series link
    with a leading no-break space is fetched all the same, since
    [requests] strips it, but is no absolute base for [urljoin]: the
    links of its season page that are paths are written as they are. *)
Lemma output_line_not_absolute_counterexample :
  writes (trace (world_of (main padded_catalog 9 ready)))
  = lines [ "/game-changer/season:1/videos/one";
            "/game-changer/season:1/videos/two";
            "https://watch.dropout.tv/game-changer/season:1/videos/three" ]
  /\ absolute_url "/game-changer/season:1/videos/one" = false
  /\ exit_status (main padded_catalog 9 ready) = Some 0
  /\ ~ (forall (E : Env) (fuel : nat) (w : World) (u : string),
          u ++ NL ∈ writes (trace (world_of (main E fuel w))) ->
          absolute_url u = true).
Proof.
  assert (Hwrites :
    writes (trace (world_of (main padded_catalog 9 ready)))
    = lines [ "/game-changer/season:1/videos/one";
              "/game-changer/season:1/videos/two";
              "https://watch.dropout.tv/game-changer/season:1/videos/three" ])
    by (vm_compute; reflexivity).
  split; [exact Hwrites|]. split; [reflexivity|].
  split; [vm_compute; reflexivity|].
  intros Hclaim.
  specialize (Hclaim padded_catalog 9%nat ready
                "/game-changer/season:1/videos/one").
  rewrite Hwrites in Hclaim.
  assert (Hin : "/game-changer/season:1/videos/one" ++ NL
                ∈ lines [ "/game-changer/season:1/videos/one";
                          "/game-changer/season:1/videos/two";
                          "https://watch.dropout.tv/game-changer/season:1/videos/three" ])
    by (unfold lines; simpl; left).
  apply Hclaim in Hin. discriminate Hin.
Qed.

(** The run of the catalog scenario, for the record. *)
Example catalog_run_output :
  fs (world_of (main catalog 9 ready)) !! OUTPUT_FILE
  = Some ("https://watch.dropout.tv/game-changer/season:1/videos/one" ++ NL
          ++ "https://watch.dropout.tv/game-changer/season:1/videos/two" ++ NL
          ++ "https://watch.dropout.tv/game-changer/season:1/videos/three" ++ NL).
Proof. vm_compute. reflexivity. Qed.

(** ** Exit status *)

Section ExitStatus.
Variable E : Env.

Lemma run_ytdlp_result output_dir w :
  (exists w', run_ytdlp E output_dir w = Done tt w')
  \/ (exists msg w' command,
        run_ytdlp E output_dir w = Raised (OSError msg) w' /\
        proc E command = ProcLaunchError msg).
Proof.
  rewrite run_ytdlp_eq.
  destruct (bool_decide _); [|left; eauto].
  destruct (resolved _ _ _) as [ytdlp|]; [|left; eauto].
  cbv zeta.
  destruct (proc E _) as [code| |msg] eqn:Hproc.
  - destruct (code =? 0); left; eauto.
  - left; eauto.
  - right. eauto.
Qed.

Lemma finish_result output_dir w :
  (exists w', finish E output_dir w = Done tt w')
  \/ (exists msg w' command,
        finish E output_dir w = Raised (OSError msg) w' /\
        proc E command = ProcLaunchError msg).
Proof.
  rewrite finish_eq. cbv zeta.
  destruct (bool_decide _); [apply run_ytdlp_result|left; eauto].
Qed.

Lemma finish_no_urls output_dir w :
  total_urls w = 0%nat ->
  exists w', finish E output_dir w = Done tt w' /\ extends print_event w w'.
Proof.
  intros Hzero. rewrite finish_eq. cbv zeta. rewrite Hzero.
  rewrite bool_decide_eq_false_2 by lia.
  eexists. split; [reflexivity|].
  eapply extends_trans; by apply log_print_extends.
Qed.

Lemma finish_launched output_dir w :
  (forall command msg, proc E command <> ProcLaunchError msg) ->
  exists w', finish E output_dir w = Done tt w'.
Proof.
  intros Hlaunch.
  destruct (finish_result output_dir w) as [Hdone|(msg & w' & command & _ & Hproc)];
    [done|]. by apply Hlaunch in Hproc.
Qed.

End ExitStatus.

(** Claim C6, as amended.  The exit status does not tell whether URLs
    were found or whether the downloader succeeded.  Take a run whose
    start-up has completed (command line parsed, cookie file present,
    output directory in place), whose index walk has returned and whose
    episode scraping has ended.  The rest of that run is the report and
    the download phase, and: (1) when no URL was collected, it prints
    the report and ends normally without launching anything, with
    status 0; (2) whenever the system can launch the downloader at all,
    it ends normally with status 0, whatever code the downloader exits
    with, and also when the downloader is not found or is interrupted.
    So a run that collects zero URLs and a run whose downloader fails
    exit with the status of a fully successful run. *)
Theorem exit_status_ignores_outcome (E : Env) (fuel : nat) (w : World)
    (output_dir : string) (w0 : World) (series_list : list series)
    (w1 w3 : World) :
  startup E w = Done output_dir w0 ->
  scrape_all_series E fuel w0 = Done series_list w1 ->
  scrape_and_write E fuel series_list (truncated w1) = Done tt w3 ->
  main E fuel w = finish E output_dir w3
  /\ (total_urls w3 = 0%nat ->
      exists w', main E fuel w = Done tt w' /\
                 extends print_event w3 w' /\
                 exit_status (main E fuel w) = Some 0)
  /\ ((forall command msg, proc E command <> ProcLaunchError msg) ->
      exists w', main E fuel w = Done tt w' /\
                 extends dispatch_event w3 w' /\
                 exit_status (main E fuel w) = Some 0).
Proof.
  intros Hstart Hwalk Hscrape.
  assert (Hmain : main E fuel w = finish E output_dir w3).
  { by rewrite main_anatomy, Hstart, Hwalk, Hscrape. }
  split_and!; [done| |].
  - intros Hzero.
    destruct (finish_no_urls E output_dir w3 Hzero) as (w' & Hfin & Hext).
    exists w'. by rewrite Hmain, Hfin.
  - intros Hlaunch.
    destruct (finish_launched E output_dir w3 Hlaunch) as (w' & Hfin).
    exists w'. rewrite Hmain, Hfin. split_and!; [done| |done].
    pose proof (finish_keeps E output_dir w3) as Hkeep.
    by rewrite Hfin in Hkeep.
Qed.

Lemma exit_status_ignores_outcome_witness :
  (exists w', main catalog_failing_download 9 ready = Done tt w' /\
              exit_status (main catalog_failing_download 9 ready) = Some 0)
  /\ (exists w', main empty_catalog 9 ready = Done tt w' /\
                 exit_status (main empty_catalog 9 ready) = Some 0).
Proof.
  split.
  - destruct (exit_status_ignores_outcome catalog_failing_download 9 ready
                "/home/user/dropout/Dropout"
                (world_of (startup catalog_failing_download ready))
                [Series "Game Changer" show_a; Series "Unknown" show_b]
                (world_of (scrape_all_series catalog_failing_download 9
                   (world_of (startup catalog_failing_download ready))))
                (world_of (scrape_and_write catalog_failing_download 9
                   [Series "Game Changer" show_a; Series "Unknown" show_b]
                   (truncated
                      (world_of (scrape_all_series catalog_failing_download 9
                         (world_of (startup catalog_failing_download ready)))))))
                ltac:(vm_compute; reflexivity)
                ltac:(vm_compute; reflexivity)
                ltac:(vm_compute; reflexivity))
      as (_ & _ & Hlaunch).
    destruct (Hlaunch ltac:(discriminate)) as (w' & Hrun & _ & Hstatus).
    exists w'. split; [exact Hrun|exact Hstatus].
  - destruct (exit_status_ignores_outcome empty_catalog 9 ready
                "/home/user/dropout/Dropout"
                (world_of (startup empty_catalog ready))
                []
                (world_of (scrape_all_series empty_catalog 9
                   (world_of (startup empty_catalog ready))))
                (world_of (scrape_and_write empty_catalog 9 []
                   (truncated
                      (world_of (scrape_all_series empty_catalog 9
                         (world_of (startup empty_catalog ready)))))))
                ltac:(vm_compute; reflexivity)
                ltac:(vm_compute; reflexivity)
                ltac:(vm_compute; reflexivity))
      as (_ & Hzero & _).
    destruct (Hzero ltac:(vm_compute; reflexivity)) as (w' & Hrun & _ & Hstatus).
    exists w'. split; [exact Hrun|exact Hstatus].
Defined.

(** The claim as stated has the exit status tell these runs apart; all
    three exit with status 0: the run that finds no URL and never
    launches the downloader, the run whose downloader exits with code
    1, and the run where everything succeeds. *)
Lemma exit_status_reflects_outcome_counterexample :
  (total_urls (world_of (main empty_catalog 9 ready)) = 0%nat /\
   exit_status (main empty_catalog 9 ready) = Some 0)
  /\ (last (trace (world_of (main catalog_failing_download 9 ready)))
      = Some (EvPrint "yt-dlp encountered an error (Code: 1).") /\
      exit_status (main catalog_failing_download 9 ready) = Some 0)
  /\ (last (trace (world_of (main catalog 9 ready)))
      = Some (EvPrint (NL ++ "Download batch complete.")) /\
      total_urls (world_of (main catalog 9 ready)) = 3%nat /\
      exit_status (main catalog 9 ready) = Some 0).
Proof. vm_compute. repeat split; reflexivity. Qed.

(** * Further properties of the code *)

(** ** Locating a binary *)

Lemma resolved_cons (E : Env) name names w :
  resolved E (name :: names) w =
  match which E name with
  | Some path => Some path
  | None =>
      if bool_decide (is_Some (fs w !! abspath E name))
      then Some (abspath E name) else resolved E names w
  end.
Proof.
  unfold resolved. cbn [resolve_binary].
  destruct (which E name); [done|].
  unfold bind, isfile, path_exists. by destruct (bool_decide _).
Qed.

(** [resolve_binary] (source lines 145-161) only looks: it never raises
    and changes nothing.  It answers [None] exactly when no candidate is
    on the search path or a file of the working directory; otherwise
    its answer comes from the first candidate that is either, and for
    that candidate the search path wins over the working directory. *)
Theorem resolve_binary_first_match (E : Env) (names : list string) (w : World) :
  resolve_binary E names w = Done (resolved E names w) w
  /\ (resolved E names w = None <->
      forall name, name ∈ names ->
        which E name = None /\ fs w !! abspath E name = None)
  /\ (forall p,
        resolved E names w = Some p ->
        exists before name after,
          names = (before ++ name :: after)%list /\
          (forall n, n ∈ before ->
             which E n = None /\ fs w !! abspath E n = None) /\
          (which E name = Some p \/
           (which E name = None /\ p = abspath E name /\ is_Some (fs w !! p)))).
Proof.
  split; [apply resolve_binary_pure|].
  induction names as [|name names [IHnone IHsome]].
  - split.
    + split; [|done]. intros _ name Hin. by apply elem_of_nil in Hin.
    + intros p Hp. discriminate.
  - rewrite resolved_cons.
    destruct (which E name) as [path|] eqn:Hwhich.
    { split.
      - split; [discriminate|]. intros Hall.
        destruct (Hall name) as [Hw _]; [left|]. congruence.
      - intros p [= <-]. exists [], name, names. split_and!; [done| |by left].
        intros n Hin. by apply elem_of_nil in Hin. }
    destruct (fs w !! abspath E name) as [data|] eqn:Hfile.
    { rewrite bool_decide_eq_true_2 by eauto. split.
      - split; [discriminate|]. intros Hall.
        destruct (Hall name) as [_ Hf]; [left|]. congruence.
      - intros p [= <-]. exists [], name, names. split_and!; [done| |].
        + intros n Hin. by apply elem_of_nil in Hin.
        + right. split_and!; [done..|]. rewrite Hfile. eauto. }
    rewrite bool_decide_eq_false_2 by (intros [? ?]; discriminate).
    split.
    + rewrite IHnone. split.
      * intros Hall n [->|Hin]%elem_of_cons; [done|by apply Hall].
      * intros Hall n Hin. apply Hall. by right.
    + intros p Hp. destruct (IHsome p Hp) as (before & n & after & -> & Hb & Hn).
      exists (name :: before), n, after. split_and!; [done| |done].
      intros n' [->|Hin]%elem_of_cons; [done|by apply Hb].
Qed.

(** ** The start-up checks *)

Lemma slept_app evs1 evs2 : slept (evs1 ++ evs2) = slept evs1 + slept evs2.
Proof.
  induction evs1 as [|e evs1 IH]; [done|].
  simpl. destruct e; rewrite ?IH; lia.
Qed.

(** Only the cookie file decides whether [check_prerequisites] (source
    lines 247-269) lets the run go on: it returns normally exactly when
    the cookie file exists.  A missing archive file only costs a warning
    and a pause of two seconds; either way the call has sent no request
    and touched no file. *)
Theorem check_prerequisites_only_needs_cookies (E : Env) (w : World) :
  ((exists w', check_prerequisites E w = Done tt w') <->
   present w COOKIES_FILE)
  /\ (forall w',
        check_prerequisites E w = Done tt w' ->
        exists evs,
          trace w' = (trace w ++ evs)%list /\ Forall console_event evs /\
          fs w' = fs w /\ clock w' = clock w /\
          slept evs = if bool_decide (present w ARCHIVE_FILE)
                      then 0 else 2000).
Proof.
  split.
  - split.
    + intros (w' & Hrun).
      destruct (decide (present w COOKIES_FILE)) as [Hc|Hc]; [done|].
      rewrite (check_prerequisites_missing E w Hc) in Hrun. discriminate.
    + intros Hc. destruct (check_prerequisites_present E w Hc) as (w' & Hrun & _).
      eauto.
  - intros w'.
    unfold check_prerequisites, bind, print, sleep, emit, path_exists, raise, ret.
    simpl.
    destruct (bool_decide (present _ COOKIES_FILE)); simpl; [|discriminate].
    change (present (log (EvPrint ("[OK] Cookies found: " ++ COOKIES_FILE))
                       (log (EvPrint "--- Checking Prerequisites ---") w))
                    ARCHIVE_FILE)
      with (present w ARCHIVE_FILE).
    destruct (bool_decide (present w ARCHIVE_FILE)); simpl;
      intros [= <-]; simpl; rewrite <- !app_assoc;
      (eexists; split_and!; [reflexivity| |done|done|reflexivity]);
      by repeat constructor.
Qed.

(** ** The download phase *)

Lemma runs_app evs1 evs2 : runs (evs1 ++ evs2) = (runs evs1 ++ runs evs2)%list.
Proof. apply omap_app. Qed.

Lemma run_ytdlp_runs (E : Env) (output_dir : string) (w : World) :
  exists evs,
    trace (world_of (run_ytdlp E output_dir w)) = (trace w ++ evs)%list /\
    fs (world_of (run_ytdlp E output_dir w)) = fs w /\
    total_urls (world_of (run_ytdlp E output_dir w)) = total_urls w /\
    runs evs =
      (if bool_decide (present w COOKIES_FILE) then
         match resolved E (ytdlp_candidates E) w with
         | Some ytdlp => [dispatch_command E output_dir ytdlp w]
         | None => []
         end
       else []).
Proof.
  rewrite run_ytdlp_eq.
  destruct (bool_decide (present w COOKIES_FILE));
    [|eexists; split_and!; reflexivity].
  destruct (resolved E (ytdlp_candidates E) w) as [ytdlp|];
    [|eexists; split_and!; reflexivity].
  cbv zeta.
  destruct (proc E _) as [code| |msg]; [destruct (code =? 0)| |]; simpl;
    rewrite <- ?app_assoc; (eexists; split_and!; reflexivity).
Qed.

(** [run_ytdlp] (source lines 183-234) launches the downloader at most
    once: exactly once, with the command line built from the resolved
    binaries, when the cookie file exists and the downloader resolves,
    and not at all otherwise.  The command starts with the resolved
    downloader and ends with the location of the muxer exactly when the
    muxer resolves: the muxer is optional.  Whatever happens, no file is
    touched. *)
Theorem run_ytdlp_launches_at_most_once (E : Env) (output_dir : string)
    (w : World) :
  exists evs,
    trace (world_of (run_ytdlp E output_dir w)) = (trace w ++ evs)%list /\
    fs (world_of (run_ytdlp E output_dir w)) = fs w /\
    runs evs =
      (if bool_decide (present w COOKIES_FILE) then
         match resolved E (ytdlp_candidates E) w with
         | Some ytdlp => [dispatch_command E output_dir ytdlp w]
         | None => []
         end
       else []) /\
    forall ytdlp,
      hd_error (dispatch_command E output_dir ytdlp w) = Some ytdlp /\
      length (dispatch_command E output_dir ytdlp w)
      = match resolved E (ffmpeg_candidates E) w with
        | Some _ => 24%nat
        | None => 22%nat
        end /\
      forall muxer,
        resolved E (ffmpeg_candidates E) w = Some muxer ->
        drop 22 (dispatch_command E output_dir ytdlp w)
        = ["--ffmpeg-location"; muxer].
Proof.
  destruct (run_ytdlp_runs E output_dir w) as (evs & Ht & Hfs & _ & Hruns).
  exists evs. split_and!; [done..|].
  intros ytdlp. unfold dispatch_command, ytdlp_command.
  destruct (resolved E (ffmpeg_candidates E) w) as [muxer|].
  - split; [reflexivity|]. split; [reflexivity|]. by intros ? [= <-].
  - split; [reflexivity|]. split; [reflexivity|]. discriminate.
Qed.

(** A run on a machine with the downloader in the working directory and
    the muxer on the search path: one launch, of the local binary, told
    where the muxer is. *)
Example run_with_local_tools :
  exists command,
    runs (trace (world_of (main local_tools 40 with_local_downloader)))
    = [command]
    /\ hd_error command = Some "/home/user/dropout/yt-dlp"
    /\ drop 22 command = ["--ffmpeg-location"; "/usr/bin/ffmpeg"].
Proof.
  eexists. split; [vm_compute; reflexivity|]. split; reflexivity.
Qed.

(** ** The only ways out of the walks *)

(** The index walk (source lines 81-100) has one way out, the boundary
    status: an empty listing does not end it.  On a site whose index
    never answers 400, [scrape_all_series] returns for no amount of
    fuel. *)
Theorem index_walk_needs_boundary_status (E : Env) :
  (forall c page r,
     net E c (series_page_url page) = NetResponse r -> status_code r <> 400) ->
  forall fuel w l w', scrape_all_series E fuel w <> Done l w'.
Proof.
  intros Hnever fuel w l w' Hrun.
  apply scrape_all_series_Done_inv in Hrun
    as (batches & w1 & w2 & _ & _ & Hlast & _).
  rewrite get_series_from_page_eq in Hlast.
  destruct (blocking_get _ _ _ _ _) as [r w3| |] eqn:Hget; try discriminate.
  destruct (Z.eqb_spec (status_code r) 400) as [Hstatus|]; [|discriminate].
  apply blocking_get_Done_inv in Hget as (k & _ & _ & Hnet & _).
  by apply Hnever in Hnet.
Qed.

Lemma index_walk_needs_boundary_status_witness :
  ~ exists l w', scrape_all_series endless_catalog 40 ready = Done l w'.
Proof.
  intros (l & w' & Hrun).
  apply (index_walk_needs_boundary_status endless_catalog) in Hrun.
  - exact Hrun.
  - intros c page r.
    change (net endless_catalog c (series_page_url page))
      with (endless_net c (series_page_url page)).
    unfold endless_net. destruct (String.prefix _ _); by intros [= <-].
Defined.

(** The season walk (source lines 121-142) has one way out, a season
    page without episode links.  For a show whose every season page
    lists at least one link, whatever the season number,
    [scrape_show_episodes] returns for no amount of fuel. *)
Theorem season_walk_needs_empty_page (E : Env) (show : series) :
  (forall c season r,
     net E c (season_url (url show) season) = NetResponse r ->
     episode_hrefs E (text r) <> []) ->
  forall fuel w eps w', scrape_show_episodes E fuel show w <> Done eps w'.
Proof.
  intros Hnever fuel w eps w' Hrun.
  apply scrape_show_episodes_Done_inv in Hrun as (pages & w1 & _ & _ & Hlast & _).
  rewrite get_episode_links_eq in Hlast.
  destruct (blocking_get _ _ _ _ _) as [r w3| |] eqn:Hget; try discriminate.
  injection Hlast as Hlinks _.
  apply blocking_get_Done_inv in Hget as (k & _ & _ & Hnet & _).
  apply Hnever in Hnet. by destruct (episode_hrefs E (text r)).
Qed.

Lemma season_walk_needs_empty_page_witness :
  ~ exists eps w',
      scrape_show_episodes endless_catalog 40 (Series "Game Changer" show_a) ready
      = Done eps w'.
Proof.
  intros (eps & w' & Hrun).
  apply (season_walk_needs_empty_page endless_catalog) in Hrun.
  - exact Hrun.
  - intros c season r.
    change (net endless_catalog c
              (season_url (url (Series "Game Changer" show_a)) season))
      with (endless_net c (season_url show_a season)).
    unfold endless_net.
    assert (Hp : String.prefix SERIES_INDEX (season_url show_a season) = false)
      by reflexivity.
    rewrite Hp. intros [= <-]. vm_compute. discriminate.
Defined.

(** The boundary status is a stop signal for the index only: for a
    season page [get_episode_links] (source lines 102-119) calls
    [blocking_get] without the flag, so a season page that answers with
    an error status, 400 and 404 included, is requested again and again
    and the call returns for no amount of fuel. *)
Theorem get_episode_links_retries_error_status (E : Env) (show_url : string)
    (season : nat) (w : World) :
  (forall k, exists r,
     net E (clock w + k) (season_url show_url season) = NetResponse r /\
     400 <= status_code r < 600) ->
  forall fuel,
    get_episode_links E fuel show_url season w
    = OutOfFuel (retried E (season_url show_url season) w fuel).
Proof.
  intros Herr fuel. rewrite get_episode_links_eq.
  rewrite blocking_get_failing; [done|].
  intros k _. destruct (Herr k) as (r & -> & Hlo & Hhi).
  unfold transient_failure, fetch_done. simpl.
  apply Z.leb_le in Hlo. apply Z.ltb_lt in Hhi. by rewrite Hlo, Hhi.
Qed.

Lemma get_episode_links_retries_error_status_witness :
  get_episode_links strict_catalog 6 show_a 2 (mkWorld 5 [] ∅ 0 ∅)
  = OutOfFuel (retried strict_catalog (season_url show_a 2) (mkWorld 5 [] ∅ 0 ∅) 6).
Proof.
  apply (get_episode_links_retries_error_status strict_catalog show_a 2).
  intros k. exists (Response 404 ""). split; [reflexivity|]. simpl. lia.
Defined.

(** ** Merging, again *)

Lemma merge_series_seen st s :
  (merge_series st s).2 = st.2 ∪ {[url s]}.
Proof.
  destruct st as [acc seen]. unfold merge_series.
  case_bool_decide; simpl; apply set_eq; intros u;
    rewrite ?elem_of_union, ?elem_of_singleton; intuition (subst; done).
Qed.

Lemma merge_batch_seen batch : forall st,
  (merge_batch st batch).2 = st.2 ∪ list_to_set (url <$> batch).
Proof.
  unfold merge_batch. induction batch as [|s batch IH]; intros st.
  - simpl. apply set_eq. intros u.
    rewrite elem_of_union, elem_of_empty. intuition (subst; done).
  - cbn [foldl]. rewrite IH, merge_series_seen. simpl. apply set_eq. intros u.
    rewrite !elem_of_union, elem_of_singleton. intuition (subst; done).
Qed.

Lemma merge_batch_known batch : forall st,
  (forall s, s ∈ batch -> url s ∈ st.2) -> merge_batch st batch = st.
Proof.
  unfold merge_batch. induction batch as [|s batch IH]; intros st Hknown; [done|].
  cbn [foldl].
  assert (Hs : merge_series st s = st).
  { destruct st as [acc seen]. unfold merge_series.
    rewrite bool_decide_eq_true_2; [done|]. apply Hknown. by left. }
  rewrite Hs. apply IH. intros s' Hin. apply Hknown. by right.
Qed.

(** Merging a page is idempotent and later pages never reorder earlier
    entries (source lines 93-96): merging the same batch a second time
    changes nothing, whatever has been collected before, and merging
    any batch only appends to the list. *)
Theorem merge_batch_idempotent (st : list series * gset string)
    (batch : list series) :
  merge_batch (merge_batch st batch) batch = merge_batch st batch
  /\ exists added, (merge_batch st batch).1 = (st.1 ++ added)%list.
Proof.
  split.
  - apply merge_batch_known. intros s Hin.
    rewrite merge_batch_seen. apply elem_of_union_r, elem_of_list_to_set.
    apply list_elem_of_fmap. eauto.
  - unfold merge_batch. revert st.
    induction batch as [|s batch IH]; intros st.
    + exists []. by rewrite app_nil_r.
    + cbn [foldl]. destruct (IH (merge_series st s)) as (added & ->).
      destruct st as [acc seen]. unfold merge_series.
      case_bool_decide; simpl; [by exists added|].
      exists (s :: added). by rewrite <- app_assoc.
Qed.

Lemma collected_seen batches :
  (foldl merge_batch ([], ∅) batches).2
  = list_to_set (url <$> concat batches).
Proof.
  rewrite foldl_merge_batch_concat, merge_batch_seen. simpl.
  apply set_eq. intros u. rewrite elem_of_union, elem_of_empty. intuition (subst; done).
Qed.

(** The total that [scrape_all_series] prints and the length of the
    list it returns (source lines 99-100) are the number of distinct
    series URLs on the index pages, for every sequence of pages listed
    from page 1 up to the page that answers the boundary status. *)
Theorem total_series_is_number_of_distinct_urls (E : Env) (fuel : nat)
    (w : World) (batches : list (list series)) (w1 w2 : World) :
  pages_listed E fuel 1
    (log (EvPrint "--- Finding all Series ---") w) batches w1 ->
  get_series_from_page E fuel (Datatypes.S (length batches)) w1
    = Done None w2 ->
  (length batches < fuel)%nat ->
  exists l w',
    scrape_all_series E fuel w = Done l w' /\
    length l = size (list_to_set (url <$> concat batches) : gset string) /\
    last (trace w')
    = Some (EvPrint ("Total Series Found: "
                     ++ pretty (size (list_to_set (url <$> concat batches)
                                      : gset string)) ++ NL)).
Proof.
  intros Hpages Hlast Hfuel.
  assert (Hlen : length (collected batches)
                 = size (list_to_set (url <$> concat batches) : gset string)).
  { destruct (collected_inv batches) as [Hnd Hseen].
    rewrite <- collected_seen.
    assert (Hset : (foldl merge_batch ([], ∅) batches).2
                   = list_to_set (url <$> collected batches)).
    { apply set_eq. intros u. rewrite Hseen, elem_of_list_to_set. done. }
    rewrite Hset, size_list_to_set by done. by rewrite length_fmap. }
  eexists _, _. split_and!.
  - by apply (scrape_all_series_boundary E fuel w batches w1 w2).
  - done.
  - unfold log. simpl. rewrite last_snoc. by rewrite Hlen.
Qed.

Lemma total_series_is_number_of_distinct_urls_witness :
  exists l w',
    scrape_all_series catalog 4 ready = Done l w' /\
    length l = 2%nat /\
    last (trace w') = Some (EvPrint ("Total Series Found: 2" ++ NL)).
Proof.
  destruct catalog_index_walk as [Hpages Hlast].
  destruct (total_series_is_number_of_distinct_urls catalog 4 ready
              catalog_batches catalog_listed catalog_boundary
              Hpages Hlast ltac:(simpl; lia))
    as (l & w' & Hrun & Hlen & Hprint).
  exists l, w'. split; [exact Hrun|]. split.
  - rewrite Hlen. vm_compute. reflexivity.
  - rewrite Hprint. vm_compute. reflexivity.
Defined.

(** ** What the run leaves alone *)

Lemma tidy_refl w : tidy w w.
Proof. split; [exists []; by rewrite app_nil_r|done]. Qed.

Lemma tidy_trans w1 w2 w3 : tidy w1 w2 -> tidy w2 w3 -> tidy w1 w3.
Proof.
  intros [(evs1 & Ht1 & Hr1) Hf1] [(evs2 & Ht2 & Hr2) Hf2]. split.
  - exists (evs1 ++ evs2)%list. split; [by rewrite Ht2, Ht1, app_assoc|].
    by rewrite runs_app, Hr1, Hr2.
  - intros p Hp. by rewrite Hf2, Hf1.
Qed.

Lemma runs_no_launch evs : Forall no_launch_event evs -> runs evs = [].
Proof.
  induction 1 as [|e evs He _ IH]; [done|]. destruct e; simpl in *; done.
Qed.

Lemma extends_tidy (P : event -> Prop) w w' :
  (forall e, P e -> no_launch_event e) -> extends P w w' -> tidy w w'.
Proof.
  intros HP (evs & Ht & Hall & Hfs & _). split.
  - exists evs. split; [done|]. apply runs_no_launch.
    eapply Forall_impl; eauto.
  - intros p _. by rewrite Hfs.
Qed.

Lemma scrape_no_launch e : scrape_event e -> no_launch_event e.
Proof. by destruct e. Qed.

Lemma console_no_launch e : console_event e -> no_launch_event e.
Proof. by destruct e. Qed.

Ltac tidy_step :=
  first
    [ apply keeps_ret; apply tidy_refl
    | apply keeps_raise; apply tidy_refl
    | apply keeps_bind; [apply tidy_trans | | intros ?]
    | apply keeps_try_except; [apply tidy_trans | | ]
    | apply keeps_for_each; [apply tidy_refl | apply tidy_trans | intros ? ?] ].

Lemma emit_tidy e : no_launch_event e -> keeps tidy (emit e).
Proof.
  intros He w. split; [|done]. exists [e]. split; [done|].
  by apply runs_no_launch; repeat constructor.
Qed.

Lemma file_write_tidy data : keeps tidy (file_write OUTPUT_FILE data).
Proof.
  intros w. split; simpl.
  - by exists [EvWrite OUTPUT_FILE data].
  - intros p Hp. by rewrite lookup_insert_ne.
Qed.

Lemma open_append_tidy : keeps tidy (open_append OUTPUT_FILE).
Proof.
  intros w. split; simpl.
  - by exists [EvOpenA OUTPUT_FILE].
  - intros p Hp. by rewrite lookup_insert_ne.
Qed.

Lemma truncated_tidy w : tidy w (truncated w).
Proof.
  split; simpl.
  - by eexists.
  - intros p Hp. by rewrite lookup_insert_ne.
Qed.

Lemma write_urls_tidy urls : keeps tidy (write_urls urls).
Proof.
  unfold write_urls. tidy_step. tidy_step; [apply file_write_tidy|].
  tidy_step; [intros w; apply tidy_refl|].
  intros w. split; [exists []; by rewrite app_nil_r|done].
Qed.

Lemma scrape_and_write_tidy (E : Env) fuel series_list :
  keeps tidy (scrape_and_write E fuel series_list).
Proof.
  unfold scrape_and_write. tidy_step.
  - tidy_step; [apply open_append_tidy|]. tidy_step.
    tidy_step; [|apply write_urls_tidy].
    eapply keeps_weaken; [|apply scrape_show_episodes_keeps].
    intros w w'. apply extends_tidy, scrape_no_launch.
  - intros e k. destruct e; intros [= <-]. by apply emit_tidy.
Qed.

Lemma startup_tidy (E : Env) : keeps tidy (startup E).
Proof.
  unfold startup, print. tidy_step.
  { unfold parse_args. destruct (argv_outcome E); tidy_step. }
  tidy_step.
  { eapply keeps_weaken; [|apply check_prerequisites_keeps].
    intros w w'. apply extends_tidy, console_no_launch. }
  tidy_step.
  { intros w. destruct (makedirs_keeps E (resolve_output_dir E a) w)
      as (evs & Ht & _ & Hfs & _).
    split; [|intros p _; by rewrite Hfs].
    exists [EvMakedirs (resolve_output_dir E a)]. split; [|done].
    unfold makedirs. cbv zeta.
    destruct (bool_decide _); [done|]. destruct (bool_decide _); [done|].
    by destruct (mkdir E _). }
  tidy_step; [by apply emit_tidy|]. tidy_step.
Qed.

(** Up to the report, a run launches nothing and touches no file but
    the output file; the rest of the run is [finish]. *)
Lemma main_before_finish (E : Env) (fuel : nat) (w : World) :
  (tidy w (world_of (main E fuel w)) /\
   total_urls (world_of (main E fuel w)) = total_urls w \/
   exists w3, tidy w (world_of (main E fuel w)) /\
              main E fuel w = OutOfFuel w3)
  \/ (exists output_dir w3,
        tidy w w3 /\ main E fuel w = finish E output_dir w3).
Proof.
  rewrite main_anatomy.
  pose proof (startup_tidy E w) as Hstart.
  pose proof (startup_keeps E w) as (_ & _ & _ & _ & Hn0 & _).
  destruct (startup E w) as [output_dir w0|e w0|w0]; simpl in *;
    [|left; left; done|left; left; done].
  pose proof (scrape_all_series_keeps E fuel w0) as Hwalk.
  assert (Hn1 : total_urls (world_of (scrape_all_series E fuel w0)) = total_urls w)
    by (destruct Hwalk as (_ & _ & _ & _ & -> & _); done).
  apply (extends_tidy _ _ _ scrape_no_launch) in Hwalk.
  pose proof (tidy_trans _ _ _ Hstart Hwalk) as Hpre.
  destruct (scrape_all_series E fuel w0) as [series_list w1|e w1|w1]; simpl in *;
    [|left; left; done|left; left; done].
  pose proof (scrape_and_write_tidy E fuel series_list (truncated w1)) as Hscrape.
  pose proof (tidy_trans _ _ _ Hpre
                (tidy_trans _ _ _ (truncated_tidy w1) Hscrape)) as Hall.
  destruct (scrape_and_write_spec E fuel series_list (truncated w1))
    as (per_show & w3 & _ & _ & [Hrun|Hrun]); rewrite Hrun in *; simpl in *.
  - right. by exists output_dir, w3.
  - left. right. by exists w3.
Qed.

(** *** Directories *)

Lemma grows_refl D w : grows D w w.
Proof. split; [done|apply union_subseteq_l]. Qed.

Lemma grows_trans D w1 w2 w3 : grows D w1 w2 -> grows D w2 w3 -> grows D w1 w3.
Proof.
  intros [Hl1 Hu1] [Hl2 Hu2]. split; [by etrans|].
  intros d Hd. apply Hu2, elem_of_union in Hd as [Hd|Hd].
  - by apply Hu1.
  - by apply elem_of_union_r.
Qed.

Lemma same_dirs_grows D {A} (m : M A) :
  (forall w, dirs (world_of (m w)) = dirs w) -> keeps (grows D) m.
Proof. intros Hm w. unfold grows. rewrite Hm. apply grows_refl. Qed.

Lemma extends_grows (P : event -> Prop) D {A} (m : M A) :
  keeps (extends P) m -> keeps (grows D) m.
Proof.
  intros Hm. apply same_dirs_grows. intros w.
  by destruct (Hm w) as (_ & _ & _ & _ & _ & ->).
Qed.

Ltac grows_step :=
  first
    [ apply keeps_ret; apply grows_refl
    | apply keeps_raise; apply grows_refl
    | apply keeps_bind; [apply grows_trans | | intros ?]
    | apply keeps_for_each; [apply grows_refl | apply grows_trans | intros ? ?]
    | apply same_dirs_grows; intros ?; reflexivity ].

Lemma write_urls_grows D urls : keeps (grows D) (write_urls urls).
Proof. unfold write_urls. repeat grows_step. Qed.

Lemma scrape_and_write_grows (E : Env) D fuel series_list :
  keeps (grows D) (scrape_and_write E fuel series_list).
Proof.
  unfold scrape_and_write.
  apply keeps_try_except; [apply grows_trans| |].
  - grows_step; [grows_step|]. grows_step. grows_step; [|apply write_urls_grows].
    eapply extends_grows, scrape_show_episodes_keeps.
  - intros e k. destruct e; intros [= <-]. grows_step.
Qed.

(** The only directories a run creates are those of its one call of
    [os.makedirs]; it removes none. *)
Lemma main_grows (E : Env) (fuel : nat) : keeps (grows (run_dirs E)) (main E fuel).
Proof.
  unfold main, parse_args, run_dirs.
  destruct (argv_outcome E) as [arg|code]; [|grows_step; grows_step].
  intros w. change (bind (ret arg) ?k w) with (k arg w). revert w.
  grows_step; [eapply extends_grows, check_prerequisites_keeps|].
  grows_step; [apply makedirs_grows|].
  grows_step; [grows_step|].
  grows_step; [eapply extends_grows, scrape_all_series_keeps|].
  do 4 (grows_step; [first [grows_step|apply scrape_and_write_grows]|]).
  grows_step; [grows_step|].
  grows_step; [grows_step|].
  destruct (bool_decide _); [|grows_step].
  eapply extends_grows, run_ytdlp_keeps.
Qed.

(** What the script itself leaves on the disk (the whole of the
    source): whatever the run does and however it ends, every regular
    file but the output file (the cookie file, the archive file, any
    other) is neither created, changed nor removed; no directory is
    removed; and the only directories created are those of the call
    [os.makedirs(output_dir, exist_ok=True)] on line 285. *)
Theorem only_output_file_is_written (E : Env) (fuel : nat) (w : World) :
  (forall p, p <> OUTPUT_FILE ->
             fs (world_of (main E fuel w)) !! p = fs w !! p)
  /\ dirs w ⊆ dirs (world_of (main E fuel w))
  /\ dirs (world_of (main E fuel w)) ⊆ dirs w ∪ run_dirs E.
Proof.
  split; [|apply main_grows].
  intros p Hp.
  destruct (main_before_finish E fuel w)
    as [[[[_ Hf] _]|(w3 & [_ Hf] & _)]|(output_dir & w3 & [_ Hf] & ->)].
  - by apply Hf.
  - by apply Hf.
  - destruct (finish_keeps E output_dir w3) as (_ & _ & _ & -> & _).
    by apply Hf.
Qed.

Lemma only_output_file_is_written_witness :
  fs (world_of (main catalog 9 ready)) !! COOKIES_FILE
  = fs ready !! COOKIES_FILE.
Proof.
  apply (proj1 (only_output_file_is_written catalog 9 ready) COOKIES_FILE).
  discriminate.
Defined.

(** The run of the catalog scenario creates the output directory next
    to the script. *)
Example catalog_run_directories :
  dirs (world_of (main catalog 9 ready))
  = {[ "/home/user/dropout/Dropout" ]} ∪ dirs ready.
Proof. vm_compute. reflexivity. Qed.

(** ** The output directory *)

(** When the output directory cannot be created (source line 285),
    nothing catches the [OSError]: with the command line parsed and the
    cookie file in place, a run whose output directory does not exist
    yet and whose path is taken by a regular file, or is refused by the
    operating system, ends with a traceback and status 1, having sent
    no request and touched no regular file. *)
Theorem output_dir_failure_ends_run (E : Env) (fuel : nat) (w : World)
    (arg : string) :
  argv_outcome E = ArgsParsed arg ->
  present w COOKIES_FILE ->
  resolve_output_dir E arg ∉ dirs w ->
  (is_Some (fs w !! resolve_output_dir E arg) \/
   exists ancestors msg,
     mkdir E (resolve_output_dir E arg) = MkdirError ancestors msg) ->
  exists msg w',
    main E fuel w = Raised (OSError msg) w' /\
    exit_status (main E fuel w) = Some 1 /\
    gets (trace w') = gets (trace w) /\
    fs w' = fs w.
Proof.
  intros Hargs Hcookies Hnew Hfail.
  destruct (check_prerequisites_present E w Hcookies)
    as (w0 & Hcheck & evs & Ht & Hcons & Hfs & _ & Hdirs).
  assert (Hgets : gets evs = []).
  { clear Ht. induction Hcons as [|e evs He _ IH]; [done|].
    destruct e; simpl in *; done. }
  assert (Hmk : exists msg w',
             makedirs E (resolve_output_dir E arg) w0 = Raised (OSError msg) w' /\
             trace w' = (trace w0 ++ [EvMakedirs (resolve_output_dir E arg)])%list /\
             fs w' = fs w0).
  { unfold makedirs. cbv zeta. rewrite Hdirs, Hfs.
    rewrite (bool_decide_eq_false_2 _ Hnew).
    destruct Hfail as [Hfile|(ancestors & msg & Hsys)].
    - rewrite (bool_decide_eq_true_2 _ Hfile). eexists _, _. done.
    - destruct (bool_decide (is_Some _)); [eexists _, _; done|].
      rewrite Hsys. eexists _, _. done. }
  destruct Hmk as (msg & w' & Hmk & Ht' & Hfs').
  assert (Hmain : main E fuel w = Raised (OSError msg) w').
  { unfold main, parse_args. rewrite Hargs.
    rewrite (bind_Done _ _ w arg w) by reflexivity.
    rewrite (bind_Done _ _ w tt w0) by exact Hcheck.
    by apply bind_Raised. }
  exists msg, w'. rewrite Hmain. split_and!; [done|done| |congruence].
  rewrite Ht', Ht, !gets_app, Hgets. simpl. by rewrite !app_nil_r.
Qed.

Lemma output_dir_failure_ends_run_witness :
  exists msg w',
    main catalog_no_output_dir 9 ready = Raised (OSError msg) w' /\
    exit_status (main catalog_no_output_dir 9 ready) = Some 1 /\
    gets (trace w') = gets (trace ready) /\
    fs w' = fs ready.
Proof.
  apply (output_dir_failure_ends_run catalog_no_output_dir 9 ready
           "/dev/null/media").
  - reflexivity.
  - apply (bool_decide_eq_true_1 (present ready COOKIES_FILE)).
    vm_compute. reflexivity.
  - apply (bool_decide_eq_false_1
             (resolve_output_dir catalog_no_output_dir "/dev/null/media"
              ∈ dirs ready)).
    vm_compute. reflexivity.
  - right. eexists _, _. reflexivity.
Defined.

(** The downloader is launched at most once in a run, after the report,
    and only when at least one URL was written (source lines 306-310):
    a run that collected nothing never launches it. *)
Theorem download_needs_urls (E : Env) (fuel : nat) (w : World) :
  exists evs,
    trace (world_of (main E fuel w)) = (trace w ++ evs)%list /\
    (runs evs = [] \/
     exists output_dir w3 ytdlp,
       main E fuel w = finish E output_dir w3 /\
       (0 < total_urls w3)%nat /\
       total_urls (world_of (main E fuel w)) = total_urls w3 /\
       runs evs = [ dispatch_command E output_dir ytdlp
                      (log (EvPrint (NL ++ "Scraping Finished. Found "
                                        ++ pretty (total_urls w3) ++ " links."))
                           w3) ]).
Proof.
  destruct (main_before_finish E fuel w)
    as [[[[(evs & Ht & Hr) _] _]|(w3 & [(evs & Ht & Hr) _] & _)]
       |(output_dir & w3 & [(evs & Ht & Hr) _] & Hmain)].
  - exists evs. split; [done|by left].
  - exists evs. split; [done|by left].
  - rewrite Hmain, finish_eq. cbv zeta.
    case_bool_decide as Htotal.
    + destruct (run_ytdlp_runs E output_dir
                  (log (EvPrint (NL ++ "Scraping Finished. Found "
                                    ++ pretty (total_urls w3) ++ " links.")) w3))
        as (evs' & Ht' & _ & Hn' & Hr').
      exists (evs ++ [EvPrint (NL ++ "Scraping Finished. Found "
                                  ++ pretty (total_urls w3) ++ " links.")]
                ++ evs')%list.
      split.
      { rewrite Ht'. simpl. rewrite Ht. by rewrite <- !app_assoc. }
      rewrite !runs_app, Hr, Hr'. simpl.
      destruct (bool_decide _); [|by left].
      destruct (resolved E (ytdlp_candidates E) _) as [ytdlp|]; [|by left].
      right. exists output_dir, w3, ytdlp. split_and!; try done.
      by rewrite finish_eq, (bool_decide_eq_true_2 _ Htotal).
    + eexists. split.
      { simpl. rewrite Ht, <- !app_assoc. reflexivity. }
      left. rewrite runs_app, Hr. reflexivity.
Qed.

(** ** The count that is reported *)



(** ** An interrupt keeps what was found *)

Section Partial.
Variable E : Env.

Lemma shows_done_for_each fuel shows w per_show w' :
  shows_done E fuel shows w per_show w' ->
  forall rest,
    for_each (shows ++ rest)
      (fun show (_ : unit) =>
         episode_urls <- scrape_show_episodes E fuel show ;;
         write_urls episode_urls) tt w
    = for_each rest
        (fun show (_ : unit) =>
           episode_urls <- scrape_show_episodes E fuel show ;;
           write_urls episode_urls) tt w'.
Proof.
  induction 1 as [w|show shows w eps w1 w2 per_show w3 Hscrape Hwrite _ IH];
    intros rest; [done|].
  cbn [app for_each]. erewrite bind_Done; [apply IH|].
  by erewrite bind_Done.
Qed.

Lemma shows_done_appends fuel shows w per_show w' :
  shows_done E fuel shows w per_show w' ->
  appends (concat per_show) w w' /\ Forall2 (show_urls E) shows per_show.
Proof.
  induction 1 as [w|show shows w eps w1 w2 per_show w3 Hscrape Hwrite _ [IHa IHu]].
  - split; [apply appends_refl|constructor].
  - split.
    + simpl. eapply appends_trans; [|exact IHa].
      pose proof (scrape_show_episodes_keeps E fuel show w) as Hkeep.
      rewrite Hscrape in Hkeep.
      apply (extends_appends _ _ _ scrape_no_file) in Hkeep.
      destruct (write_urls_appends eps w1) as (w2' & Hw & Happ).
      rewrite Hwrite in Hw. injection Hw as <-.
      change eps with ([] ++ eps)%list. by eapply appends_trans.
    + constructor; [by eapply scrape_show_episodes_show_urls|done].
Qed.

End Partial.

(** When every show of the list is scraped without an interrupt, the
    guarded loop of the main block (source lines 294-304) returns and
    has appended to the output file the URLs of all the shows, in the
    order of the list, and counted them. *)
Theorem scrape_and_write_completes (E : Env) (fuel : nat)
    (series_list : list series) (w : World) (per_show : list (list string))
    (w' : World) :
  shows_done E fuel series_list (world_of (open_append OUTPUT_FILE w))
    per_show w' ->
  scrape_and_write E fuel series_list w = Done tt w' /\
  Forall2 (show_urls E) series_list per_show /\
  content w' = content w ++ concat_str (lines (concat per_show)) /\
  total_urls w' = (total_urls w + length (concat per_show))%nat.
Proof.
  intros Hdone.
  destruct (shows_done_appends E fuel _ _ _ _ Hdone) as [Happ Hurls].
  pose proof (appends_trans _ _ _ _ _ (open_append_appends w) Happ)
    as (evs & _ & _ & _ & Hc & _ & Hn).
  split_and!; [|done..].
  rewrite scrape_and_write_eq.
  pose proof (shows_done_for_each E fuel _ _ _ _ Hdone []) as Hloop.
  rewrite app_nil_r in Hloop. by rewrite Hloop.
Qed.

Lemma scrape_and_write_completes_witness :
  scrape_and_write catalog 9
    [Series "Game Changer" show_a; Series "Unknown" show_b] (mkWorld 4 [] ∅ 0 ∅)
  = Done tt (world_of (scrape_and_write catalog 9
               [Series "Game Changer" show_a; Series "Unknown" show_b]
               (mkWorld 4 [] ∅ 0 ∅))).
Proof.
  refine (proj1 (scrape_and_write_completes catalog 9
            [Series "Game Changer" show_a; Series "Unknown" show_b]
            (mkWorld 4 [] ∅ 0 ∅)
            [ [ "https://watch.dropout.tv/game-changer/season:1/videos/one";
                "https://watch.dropout.tv/game-changer/season:1/videos/two";
                "https://watch.dropout.tv/game-changer/season:1/videos/three" ];
              [] ]
            _ _)).
  eapply shows_done_cons; [vm_compute; reflexivity|vm_compute; reflexivity|].
  eapply shows_done_cons; [vm_compute; reflexivity|vm_compute; reflexivity|].
  apply shows_done_nil.
Defined.

(** When the user interrupts the scraping of a show, the guarded loop
    (source lines 294-304) catches the interrupt and returns normally:
    the URLs of the shows completed before are in the output file and
    in the counter, nothing of the interrupted show or of the later
    ones is written, and the main block goes on with what was found. *)
Theorem interrupt_keeps_partial_results (E : Env) (fuel : nat)
    (completed : list series) (show : series) (later : list series)
    (w : World) (per_show : list (list string)) (w1 w2 : World) :
  shows_done E fuel completed (world_of (open_append OUTPUT_FILE w))
    per_show w1 ->
  scrape_show_episodes E fuel show w1 = Raised KeyboardInterrupt w2 ->
  scrape_and_write E fuel (completed ++ show :: later) w
  = Done tt (log (EvPrint (NL ++ "Scraping interrupted! Proceeding to download with whatever we found...")) w2) /\
  Forall2 (show_urls E) completed per_show /\
  content w2 = content w ++ concat_str (lines (concat per_show)) /\
  total_urls w2 = (total_urls w + length (concat per_show))%nat.
Proof.
  intros Hdone Hint.
  destruct (shows_done_appends E fuel _ _ _ _ Hdone) as [Happ Hurls].
  pose proof (scrape_show_episodes_keeps E fuel show w1) as Hkeep.
  rewrite Hint in Hkeep.
  apply (extends_appends _ _ _ scrape_no_file) in Hkeep.
  pose proof (appends_trans _ _ _ _ _
                (appends_trans _ _ _ _ _ (open_append_appends w) Happ) Hkeep)
    as (evs & _ & _ & _ & Hc & _ & Hn).
  rewrite app_nil_r in Hc, Hn. simpl in Hc, Hn.
  split_and!; [|done..].
  rewrite scrape_and_write_eq.
  rewrite (shows_done_for_each E fuel _ _ _ _ Hdone (show :: later)).
  cbn [for_each].
  rewrite (bind_Raised _ _ w1 KeyboardInterrupt w2); [reflexivity|].
  by apply bind_Raised.
Qed.

Lemma interrupt_keeps_partial_results_witness :
  scrape_and_write interrupted_catalog 9
    [Series "Game Changer" show_a; Series "Unknown" show_b] (mkWorld 4 [] ∅ 0 ∅)
  = Done tt
      (log (EvPrint (NL ++ "Scraping interrupted! Proceeding to download with whatever we found..."))
         (world_of (scrape_show_episodes interrupted_catalog 9
                      (Series "Unknown" show_b)
                      (world_of (scrape_and_write interrupted_catalog 9
                                   [Series "Game Changer" show_a]
                                   (mkWorld 4 [] ∅ 0 ∅)))))).
Proof.
  refine (proj1 (interrupt_keeps_partial_results interrupted_catalog 9
            [Series "Game Changer" show_a] (Series "Unknown" show_b) []
            (mkWorld 4 [] ∅ 0 ∅)
            [ [ "https://watch.dropout.tv/game-changer/season:1/videos/one";
                "https://watch.dropout.tv/game-changer/season:1/videos/two";
                "https://watch.dropout.tv/game-changer/season:1/videos/three" ] ]
            (world_of (scrape_and_write interrupted_catalog 9
                         [Series "Game Changer" show_a] (mkWorld 4 [] ∅ 0 ∅)))
            _ _ _)).
  - eapply shows_done_cons; [vm_compute; reflexivity|vm_compute; reflexivity|].
    apply shows_done_nil.
  - vm_compute. reflexivity.
Defined.

(** ** The pace of the requests *)

Lemma pace_app evs1 : forall b evs2,
  pace b (evs1 ++ evs2)
  = match pace b evs1 with Some b' => pace b' evs2 | None => None end.
Proof.
  induction evs1 as [|e evs1 IH]; intros b evs2; [done|].
  destruct e; simpl; try apply IH. destruct b; [apply IH|done].
Qed.

Lemma pace_retry_events (E : Env) u n : forall c,
  pace true (retry_events E u c n) = Some true.
Proof.
  induction n as [|n IH]; intros c; [done|]. simpl. apply IH.
Qed.

Section Pace.
Variable E : Env.

Lemma rested_after_ret {A} (a : A) w : rested_after w (ret a w).
Proof. exists [], true. simpl. by rewrite app_nil_r. Qed.

Lemma rested_after_print line w : rested_after w (print line w).
Proof. by exists [EvPrint line], true. Qed.

Lemma rested_after_paced {A} w (r : result A) : rested_after w r -> paced w r.
Proof. intros (evs & b & Ht & Hp & _). by exists evs, b. Qed.

(** Sequencing: when the first part ends rested whenever it returns,
    the pace of the whole is that of the second part. *)
Lemma rested_after_bind {A B} (m : M A) (k : A -> M B) w :
  rested_after w (m w) ->
  (forall a w1, m w = Done a w1 -> rested_after w1 (k a w1)) ->
  rested_after w (bind m k w).
Proof.
  intros (evs & b & Ht & Hp & Hb) Hk. unfold bind.
  destruct (m w) as [a w1|e w1|w1] eqn:Hm; simpl in *.
  - subst b. destruct (Hk a w1 eq_refl) as (evs' & b' & Ht' & Hp' & Hb').
    exists (evs ++ evs')%list, b'. split_and!; [|by rewrite pace_app, Hp|done].
    by rewrite Ht', Ht, app_assoc.
  - by exists evs, b.
  - by exists evs, b.
Qed.

Lemma paced_bind {A B} (m : M A) (k : A -> M B) w :
  rested_after w (m w) ->
  (forall a w1, m w = Done a w1 -> paced w1 (k a w1)) ->
  paced w (bind m k w).
Proof.
  intros (evs & b & Ht & Hp & Hb) Hk. unfold bind.
  destruct (m w) as [a w1|e w1|w1] eqn:Hm; simpl in *.
  - subst b. destruct (Hk a w1 eq_refl) as (evs' & b' & Ht' & Hp').
    exists (evs ++ evs')%list, b'. split; [|by rewrite pace_app, Hp].
    by rewrite Ht', Ht, app_assoc.
  - by exists evs, b.
  - by exists evs, b.
Qed.

Lemma rested_after_while {S A} (body : S -> M (S + A)) fuel :
  (forall s w, rested_after w (body s w)) ->
  forall s w, rested_after w (while_true fuel body s w).
Proof.
  intros Hbody. induction fuel as [|fuel IH]; intros s w.
  - exists [], true. simpl. by rewrite app_nil_r.
  - cbn [while_true]. apply rested_after_bind; [apply Hbody|].
    intros [s'|a] w1 _; [apply IH|apply rested_after_ret].
Qed.

(** A loop whose body ends rested whenever it asks for another turn. *)
Lemma paced_while {S A} (body : S -> M (S + A)) fuel :
  (forall s w, exists evs b,
      trace (world_of (body s w)) = (trace w ++ evs)%list /\
      pace true evs = Some b /\
      match body s w with Done (inl _) _ => b = true | _ => True end) ->
  forall s w, paced w (while_true fuel body s w).
Proof.
  intros Hbody. induction fuel as [|fuel IH]; intros s w.
  - exists [], true. simpl. by rewrite app_nil_r.
  - rewrite while_true_S. destruct (Hbody s w) as (evs & b & Ht & Hp & Hb).
    destruct (body s w) as [[s'|a] w1|e w1|w1]; simpl in *;
      try by exists evs, b.
    subst b. destruct (IH s' w1) as (evs' & b' & Ht' & Hp').
    exists (evs ++ evs')%list, b'. split; [|by rewrite pace_app, Hp].
    by rewrite Ht', Ht, app_assoc.
Qed.

Lemma rested_after_for_each {X} (body : X -> unit -> M unit) xs :
  (forall x w, rested_after w (body x tt w)) ->
  forall w, rested_after w (for_each xs body tt w).
Proof.
  intros Hbody. induction xs as [|x xs IH]; intros w.
  - apply rested_after_ret.
  - cbn [for_each]. apply rested_after_bind; [apply Hbody|].
    intros [] w1 _. apply IH.
Qed.

(** One call of [blocking_get]: it is rested when it runs out of fuel
    and when it returns, unless it returns the boundary status. *)
Lemma blocking_get_pace u allow fuel : forall w,
  exists evs b,
    trace (world_of (blocking_get E fuel u allow w)) = (trace w ++ evs)%list /\
    pace true evs = Some b /\
    match blocking_get E fuel u allow w with
    | Done r _ => b = negb (allow && (status_code r =? 400))
    | Raised _ _ => True
    | OutOfFuel _ => b = true
    end.
Proof.
  induction fuel as [|fuel IH]; intros w.
  - exists [], true. simpl. by rewrite app_nil_r.
  - rewrite blocking_get_S, blocking_get_attempt_cases.
    assert (Hretry : forall r', (r' = blocking_get E fuel u allow (retried E u w 1)) ->
      exists evs b,
        trace (world_of r') = (trace w ++ evs)%list /\
        pace true evs = Some b /\
        match r' with
        | Done r _ => b = negb (allow && (status_code r =? 400))
        | Raised _ _ => True
        | OutOfFuel _ => b = true
        end).
    { intros r' ->. destruct (IH (retried E u w 1)) as (evs & b & Ht & Hp & Hb).
      exists (retry_events E u (clock w) 1 ++ evs)%list, b. split_and!; [|done|done].
      rewrite Ht. simpl. by rewrite <- !app_assoc. }
    destruct (net E (clock w) u) as [r|msg|].
    + destruct (fetch_done allow r) eqn:Hok; [|by apply Hretry].
      eexists. exists (negb (allow && (status_code r =? 400))).
      split_and!; [reflexivity| |done].
      simpl. destruct (allow && (status_code r =? 400)); reflexivity.
    + by apply Hretry.
    + eexists. exists false. split_and!; [reflexivity|done..].
Qed.

Lemma get_episode_links_rested fuel show_url season w :
  rested_after w (get_episode_links E fuel show_url season w).
Proof.
  rewrite get_episode_links_eq.
  destruct (blocking_get_pace (season_url show_url season) false fuel w)
    as (evs & b & Ht & Hp & Hb).
  destruct (blocking_get _ _ _ _ _) as [r w1|e w1|w1]; simpl in *;
    by exists evs, b.
Qed.

Lemma scrape_show_episodes_rested fuel show w :
  rested_after w (scrape_show_episodes E fuel show w).
Proof.
  unfold scrape_show_episodes. apply rested_after_bind; [apply rested_after_print|].
  intros _ w1 _. apply rested_after_while. intros [season acc] w2.
  unfold scrape_show_step. apply rested_after_bind.
  - apply get_episode_links_rested.
  - intros [|l links] w3 _; apply rested_after_ret.
Qed.

Lemma write_urls_rested urls : forall w, rested_after w (write_urls urls w).
Proof.
  unfold write_urls. apply rested_after_for_each. intros u w.
  by exists [EvWrite OUTPUT_FILE (u ++ NL)], true.
Qed.

Lemma scrape_series_step_pace fuel st w :
  exists evs b,
    trace (world_of (scrape_series_step E fuel st w)) = (trace w ++ evs)%list /\
    pace true evs = Some b /\
    match scrape_series_step E fuel st w with
    | Done (inl _) _ => b = true
    | _ => True
    end.
Proof.
  destruct st as [st0 page]. rewrite scrape_series_step_eq, get_series_from_page_eq.
  destruct (blocking_get_pace (series_page_url page) true fuel w)
    as (evs & b & Ht & Hp & Hb).
  destruct (blocking_get _ _ _ _ _) as [r w1|e w1|w1]; simpl in *;
    [|by exists evs, b..].
  destruct (status_code r =? 400) eqn:Hstatus; simpl; exists evs, b;
    (split_and!; [done..|]); [done|].
  exact Hb.
Qed.

End Pace.

(** Within the index walk, within the scraping of a show and within the
    whole episode phase, the requests keep the pace (source lines 35-57
    with 81-100, 121-142 and 294-304): every request but the first of
    the phase comes after a pause of at least [REQUEST_DELAY] in one go
    since the previous request.  The scraping of a show, and so the
    episode phase, is moreover rested again each time it ends without
    being interrupted, which is what lets one show follow another. *)
Theorem requests_keep_the_pace (E : Env) (fuel : nat) (w : World) :
  paced w (scrape_all_series E fuel w)
  /\ (forall show, rested_after w (scrape_show_episodes E fuel show w))
  /\ (forall series_list, paced w (scrape_and_write E fuel series_list w)).
Proof.
  split_and!.
  - unfold scrape_all_series.
    apply paced_bind; [apply rested_after_print|]. intros _ w1 _.
    unfold bind.
    destruct (paced_while (scrape_series_step E fuel) fuel
                (scrape_series_step_pace E fuel) ([], ∅, 1%nat) w1)
      as (evs & b & Ht & Hp).
    destruct (while_true _ _ _ _) as [l w2|e w2|w2]; simpl in *;
      [|by exists evs, b..].
    exists (evs ++ [EvPrint ("Total Series Found: " ++ pretty (length l) ++ NL)])%list, b.
    split; [|by rewrite pace_app, Hp].
    unfold ret, log. simpl. by rewrite Ht, app_assoc.
  - intros show. apply scrape_show_episodes_rested.
  - intros series_list. rewrite scrape_and_write_eq.
    assert (Hloop : rested_after (world_of (open_append OUTPUT_FILE w))
              (for_each series_list
                 (fun show (_ : unit) =>
                    episode_urls <- scrape_show_episodes E fuel show ;;
                    write_urls episode_urls) tt
                 (world_of (open_append OUTPUT_FILE w)))).
    { apply rested_after_for_each. intros show w1.
      apply rested_after_bind; [apply scrape_show_episodes_rested|].
      intros eps w2 _. apply write_urls_rested. }
    destruct Hloop as (evs & b & Ht & Hp & _). simpl in Ht.
    destruct (for_each _ _ _ _) as [[] w1|e w1|w1]; simpl in *.
    + exists (EvOpenA OUTPUT_FILE :: evs), b. simpl.
      split; [by rewrite Ht, <- app_assoc|done].
    + assert (Hraised : paced w (@Raised unit e w1)).
      { exists (EvOpenA OUTPUT_FILE :: evs), b. simpl.
        split; [by rewrite Ht, <- app_assoc|done]. }
      destruct e; try exact Hraised.
      exists (EvOpenA OUTPUT_FILE :: evs ++
              [EvPrint (NL ++ "Scraping interrupted! Proceeding to download with whatever we found...")])%list, b.
      simpl. split; [rewrite Ht; by rewrite <- !app_assoc|].
      by rewrite pace_app, Hp.
    + exists (EvOpenA OUTPUT_FILE :: evs), b. simpl.
      split; [by rewrite Ht, <- app_assoc|done].
Qed.

(** Between the two phases the pace is not kept: the boundary response
    that ends the index walk is returned without a pause, so the first
    season request of the catalog scenario comes too early. *)
Example pace_is_lost_after_the_boundary :
  exists evs,
    trace (world_of (main catalog 9 ready)) = (trace ready ++ evs)%list /\
    pace true evs = None.
Proof. eexists. split; [vm_compute; reflexivity|vm_compute; reflexivity]. Qed.
